(** * wg-ddns: the endpoint discovery and change-detection engine

    A shallow embedding of [main.go] and of the Go standard-library
    functions it calls, followed by the properties of the parser, of the
    change-detection pass, of the unit-name transforms, of discovery, of
    the restart call, of the control surface and of the command line.

    Go strings are byte sequences: they are modelled by [string] (a list
    of 8-bit characters).  A [net.IP] is a byte slice: [list byte], the
    nil slice being [[]].  A Go [error] is modelled by its message. *)

From Stdlib Require Import ZArith NArith Ascii Strings.Byte Lia.
From stdpp Require Import base list strings.

Set Default Proof Using "Type".

(** ** Results of fallible calls *)

Inductive result (A : Type) : Type :=
  | Ok (a : A)
  | Err (e : string).
Arguments Ok {A} a.
Arguments Err {A} e.

Definition isErr {A} (r : result A) : bool :=
  match r with Ok _ => false | Err _ => true end.

(** ** Package [strings] *)

Module GoStrings.

(** [s[lo:hi]] *)
Definition slice (s : string) (lo hi : nat) : string :=
  String.substring lo (hi - lo) s.

(** [len(s) >= len(prefix) && s[:len(prefix)] == prefix] *)
Definition HasPrefix (s prefix : string) : bool :=
  (String.length prefix <=? String.length s)
  && String.eqb (slice s 0 (String.length prefix)) prefix.

(** [len(s) >= len(suffix) && s[len(s)-len(suffix):] == suffix] *)
Definition HasSuffix (s suffix : string) : bool :=
  (String.length suffix <=? String.length s)
  && String.eqb
       (slice s (String.length s - String.length suffix) (String.length s))
       suffix.

Definition TrimPrefix (s prefix : string) : string :=
  if HasPrefix s prefix
  then slice s (String.length prefix) (String.length s)
  else s.

Definition TrimSuffix (s suffix : string) : string :=
  if HasSuffix s suffix
  then slice s 0 (String.length s - String.length suffix)
  else s.

(** The six ASCII white-space bytes: tab, line feed, vertical tab, form
    feed, carriage return, space. *)
Definition asciiSpace (c : ascii) : bool :=
  let n := N_of_ascii c in
  ((9 <=? n) && (n <=? 13) || (n =? 32))%N.

(** Two- and three-byte UTF-8 encodings of the other code points for
    which [unicode.IsSpace] holds: U+0085, U+00A0; U+1680, U+2000 to
    U+200A, U+2028, U+2029, U+202F, U+205F, U+3000. *)
Definition isSpace2 (c d : ascii) : bool :=
  let c := N_of_ascii c in
  let d := N_of_ascii d in
  ((c =? 194) && ((d =? 133) || (d =? 160)))%N.

Definition isSpace3 (c d e : ascii) : bool :=
  let c := N_of_ascii c in
  let d := N_of_ascii d in
  let e := N_of_ascii e in
  ((c =? 225) && (d =? 154) && (e =? 128)
   || (c =? 226) && (d =? 128)
      && ((128 <=? e) && (e <=? 138) || (e =? 168) || (e =? 169) || (e =? 175))
   || (c =? 226) && (d =? 129) && (e =? 159)
   || (c =? 227) && (d =? 128) && (e =? 128))%N.

(** [TrimLeftFunc(s, unicode.IsSpace)]: code points are decoded from the
    left and dropped while they are white space. *)
Fixpoint trimLeft (s : string) : string :=
  match s with
  | String c s1 =>
      if asciiSpace c then trimLeft s1
      else match s1 with
           | String d s2 =>
               if isSpace2 c d then trimLeft s2
               else match s2 with
                    | String e s3 =>
                        if isSpace3 c d e then trimLeft s3 else s
                    | EmptyString => s
                    end
           | EmptyString => s
           end
  | EmptyString => s
  end.

(** [TrimRightFunc(s, unicode.IsSpace)]: the longest suffix made of
    white-space code points is dropped.  UTF-8 is self-synchronising, so
    decoding that suffix from its left end or, as Go does, code point
    by code point from the right end, removes the same bytes. *)
Fixpoint trimRight (s : string) : string :=
  match s with
  | String c s1 =>
      if String.eqb (trimLeft s) "" then "" else String c (trimRight s1)
  | EmptyString => ""
  end.

Definition TrimSpace (s : string) : string := trimRight (trimLeft s).

(** [bytealg.IndexByteString], [bytealg.LastIndexByteString]: the index
    of the first (last) occurrence of [c], or [-1]. *)
Fixpoint IndexByteString (s : string) (c : ascii) : Z :=
  match s with
  | EmptyString => (-1)%Z
  | String a s1 =>
      if Ascii.eqb a c then 0%Z
      else let i := IndexByteString s1 c in
           if (i <? 0)%Z then (-1)%Z else (i + 1)%Z
  end.

Fixpoint LastIndexByteString (s : string) (c : ascii) : Z :=
  match s with
  | EmptyString => (-1)%Z
  | String a s1 =>
      let i := LastIndexByteString s1 c in
      if (0 <=? i)%Z then (i + 1)%Z
      else if Ascii.eqb a c then 0%Z else (-1)%Z
  end.

(** [strings.SplitN] for a separator of one byte: at most [n] pieces,
    the last one holding the unsplit rest. *)
Fixpoint SplitN (s : string) (sep : ascii) (n : nat) : list string :=
  match n with
  | 0 => []
  | S n' =>
      match n' with
      | 0 => [s]
      | S _ =>
          let m := IndexByteString s sep in
          if (m <? 0)%Z then [s]
          else slice s 0 (Z.to_nat m)
                 :: SplitN (slice s (Z.to_nat m + 1) (String.length s)) sep n'
      end
  end.

End GoStrings.

(** ** Package [bufio]: a [Scanner] with the [ScanLines] split function *)

Module GoBufio.

Definition LF : ascii := ascii_of_nat 10.
Definition CR : ascii := ascii_of_nat 13.

(** [bufio.MaxScanTokenSize] *)
Definition MaxScanTokenSize : N := 65536.

Definition ErrTooLong : string := "bufio.Scanner: token too long".

(** The input cut at every line feed; the last piece is what follows the
    last line feed (possibly nothing). *)
Fixpoint pieces (data : string) : list string :=
  match data with
  | EmptyString => [EmptyString]
  | String c rest =>
      if Ascii.eqb c LF then EmptyString :: pieces rest
      else match pieces rest with
           | p :: ps => String c p :: ps
           | [] => [String c EmptyString]
           end
  end.

(** [dropCR]: one trailing carriage return is removed. *)
Fixpoint dropCR (data : string) : string :=
  match data with
  | EmptyString => EmptyString
  | String c EmptyString =>
      if Ascii.eqb c CR then EmptyString else data
  | String c rest => String c (dropCR rest)
  end.

(** The successive tokens of [Scanner.Scan] and the final
    [Scanner.Err].  A final piece that is empty gives no token (there is
    no data left at the end of the input).  A piece of
    [MaxScanTokenSize] bytes or more fills the buffer before its end is
    seen: scanning stops there with [ErrTooLong]. *)
Fixpoint tokens (ps : list string) : list string * option string :=
  match ps with
  | [] => ([], None)
  | p :: rest =>
      match rest, p with
      | [], EmptyString => ([], None)
      | _, _ =>
          if (MaxScanTokenSize <=? N.of_nat (String.length p))%N
          then ([], Some ErrTooLong)
          else let '(ts, e) := tokens rest in (dropCR p :: ts, e)
      end
  end.

Definition scanLines (data : string) : list string * option string :=
  tokens (pieces data).

End GoBufio.

(** ** Package [regexp]: the fragment of the syntax the program uses

    Matching is by backtracking with the preferences of Go's leftmost-first
    semantics: repetitions are greedy and the first alternative that lets
    the rest of the pattern match wins. *)

Module GoRegexp.

Inductive regex : Type :=
  | Bol                              (* ^  : beginning of the text *)
  | Eol                              (* $  : end of the text *)
  | Lit (l : string)                 (* literal bytes *)
  | Star (p : ascii -> bool)         (* c* : greedy *)
  | Plus (p : ascii -> bool)         (* c+ : greedy *)
  | Cat (r1 r2 : regex)
  | Group (r : regex).               (* ( ) : capturing, not nested here *)

(** [\s] is [[\t\n\f\r ]], [\d] is [[0-9]] and [.] is any character
    but the line feed.  [.] ranges over code points in Go; it is only
    used as [(.+)$] after ASCII neighbours, where matching byte by byte
    captures the same text. *)
Definition space (c : ascii) : bool :=
  let n := N_of_ascii c in
  ((n =? 9) || (n =? 10) || (n =? 12) || (n =? 13) || (n =? 32))%N.

Definition digit (c : ascii) : bool :=
  let n := N_of_ascii c in
  ((48 <=? n) && (n <=? 57))%N.

Definition anyChar (c : ascii) : bool :=
  negb (N_of_ascii c =? 10)%N.

Section Continuations.
Context {A : Type}.

(** [s] is what remains of the text at offset [pos]; [k] continues. *)
Fixpoint lit (l s : string) (pos : nat)
    (k : string -> nat -> option A) : option A :=
  match l with
  | EmptyString => k s pos
  | String a l1 =>
      match s with
      | String c s1 => if Ascii.eqb c a then lit l1 s1 (S pos) k else None
      | EmptyString => None
      end
  end.

Fixpoint star (p : ascii -> bool) (s : string) (pos : nat)
    (k : string -> nat -> option A) : option A :=
  match s with
  | String c s1 =>
      if p c then
        match star p s1 (S pos) k with
        | Some m => Some m
        | None => k s pos
        end
      else k s pos
  | EmptyString => k s pos
  end.

Definition plus (p : ascii -> bool) (s : string) (pos : nat)
    (k : string -> nat -> option A) : option A :=
  match s with
  | String c s1 => if p c then star p s1 (S pos) k else None
  | EmptyString => None
  end.
End Continuations.

Fixpoint run (r : regex) (text s : string) (pos : nat) (caps : list string)
    (k : string -> nat -> list string -> option (list string))
    : option (list string) :=
  match r with
  | Bol => if pos =? 0 then k s pos caps else None
  | Eol => match s with EmptyString => k s pos caps | _ => None end
  | Lit l => lit l s pos (fun s1 pos1 => k s1 pos1 caps)
  | Star p => star p s pos (fun s1 pos1 => k s1 pos1 caps)
  | Plus p => plus p s pos (fun s1 pos1 => k s1 pos1 caps)
  | Cat r1 r2 =>
      run r1 text s pos caps (fun s1 pos1 caps1 => run r2 text s1 pos1 caps1 k)
  | Group r1 =>
      run r1 text s pos caps
        (fun s1 pos1 caps1 =>
           k s1 pos1 (caps1 ++ [GoStrings.slice text pos pos1]))
  end.

(** One attempt at offset [pos]: the whole match followed by the groups. *)
Definition attempt (r : regex) (text s : string) (pos : nat)
    : option (list string) :=
  run r text s pos []
    (fun _ pos1 caps => Some (GoStrings.slice text pos pos1 :: caps)).

(** The leftmost offset with a match wins. *)
Fixpoint search (r : regex) (text s : string) (pos : nat) : list string :=
  match attempt r text s pos with
  | Some m => m
  | None =>
      match s with
      | String _ s1 => search r text s1 (S pos)
      | EmptyString => []
      end
  end.

(** [nil] (here [[]]) when there is no match. *)
Definition FindStringSubmatch (r : regex) (text : string) : list string :=
  search r text text 0.

Definition MatchString (r : regex) (text : string) : bool :=
  match FindStringSubmatch r text with [] => false | _ => true end.

End GoRegexp.

(** ** Package [net] *)

Module GoNet.

Definition IP : Type := list byte.

Definition IPv4len : nat := 4.
Definition IPv6len : nat := 16.

Definition v4InV6Prefix : list byte :=
  [x00; x00; x00; x00; x00; x00; x00; x00; x00; x00; xff; xff].

(** [bytealg.Equal] *)
Fixpoint bytesEqual (a b : list byte) : bool :=
  match a, b with
  | [], [] => true
  | x :: a1, y :: b1 => Byte.eqb x y && bytesEqual a1 b1
  | _, _ => false
  end.

(** [IP.Equal]: an IPv4 address and the same address in IPv6 form are
    equal. *)
Definition Equal (ip x : IP) : bool :=
  if length ip =? length x then bytesEqual ip x
  else if (length ip =? IPv4len) && (length x =? IPv6len) then
    bytesEqual (take 12 x) v4InV6Prefix && bytesEqual ip (drop 12 x)
  else if (length ip =? IPv6len) && (length x =? IPv4len) then
    bytesEqual (take 12 ip) v4InV6Prefix && bytesEqual (drop 12 ip) x
  else false.

Definition missingPort : string := "missing port in address".
Definition tooManyColons : string := "too many colons in address".

(** [AddrError.Error]: the address is named unless it is empty. *)
Definition addrErr {A} (addr why : string) : result A :=
  Err (if negb (String.eqb addr "")
       then "address " +:+ addr +:+ ": " +:+ why
       else why).

Definition byteAt (s : string) (i : Z) : option ascii :=
  if (i <? 0)%Z then None else String.get (Z.to_nat i) s.

Definition isByte (o : option ascii) (c : ascii) : bool :=
  match o with Some a => Ascii.eqb a c | None => false end.

Definition SplitHostPort (hostport : string) : result (string * string) :=
  let len := String.length hostport in
  (* The port starts after the last colon. *)
  let i := GoStrings.LastIndexByteString hostport ":" in
  if (i <? 0)%Z then addrErr hostport missingPort
  else
    let bracketed : result (string * nat * nat) :=
      if isByte (byteAt hostport 0) "[" then
        (* Expect the first ']' just before the last ':'. *)
        let end_ := GoStrings.IndexByteString hostport "]" in
        if (end_ <? 0)%Z then addrErr hostport "missing ']' in address"
        else if (end_ + 1 =? Z.of_nat len)%Z then addrErr hostport missingPort
        else if (end_ + 1 =? i)%Z then
          Ok (GoStrings.slice hostport 1 (Z.to_nat end_),
              1, Z.to_nat (end_ + 1))
        else if isByte (byteAt hostport (end_ + 1)) ":" then
          addrErr hostport tooManyColons
        else addrErr hostport missingPort
      else
        let host := GoStrings.slice hostport 0 (Z.to_nat i) in
        if (0 <=? GoStrings.IndexByteString host ":")%Z then
          addrErr hostport tooManyColons
        else Ok (host, 0, 0)
    in
    match bracketed with
    | Err e => Err e
    | Ok (host, j, k) =>
        if (0 <=? GoStrings.IndexByteString (GoStrings.slice hostport j len) "[")%Z
        then addrErr hostport "unexpected '[' in address"
        else if (0 <=? GoStrings.IndexByteString (GoStrings.slice hostport k len) "]")%Z
        then addrErr hostport "unexpected ']' in address"
        else Ok (host, GoStrings.slice hostport (Z.to_nat (i + 1)) len)
    end.

End GoNet.

(** ** The program: [main.go] *)

Import GoStrings GoBufio GoRegexp GoNet.

Record Config : Type := {
  Interface : string;
  Endpoint : string;
  Hostname : string;
  LastIP : IP;
}.

(** [config.LastIP = ip] *)
Definition setLastIP (ip : IP) (config : Config) : Config :=
  {| Interface := Interface config;
     Endpoint := Endpoint config;
     Hostname := Hostname config;
     LastIP := ip |}.

(** The fields the engine and the restart handler read; the connection to
    the service manager and the HTTP server are part of the host below. *)
Record DDNSMonitor : Type := {
  configs : list Config;
  singleInterface : string;
  apiEnabled : bool;
  listenAddress : string;
  listenPort : string;
  apiKey : string;
}.

Definition setConfigs (cs : list Config) (m : DDNSMonitor) : DDNSMonitor :=
  {| configs := cs;
     singleInterface := singleInterface m;
     apiEnabled := apiEnabled m;
     listenAddress := listenAddress m;
     listenPort := listenPort m;
     apiKey := apiKey m |}.

Record RestartRequest : Type := { ReqInterface : string }.

Record RestartResponse : Type := {
  Success : bool;
  Message : string;
}.

(** What [c.JSON(status, body)] sends. *)
Record Response : Type := {
  Status : nat;
  Body : RestartResponse;
}.

Definition StatusOK : nat := 200.
Definition StatusBadRequest : nat := 400.
Definition StatusNotFound : nat := 404.
Definition StatusInternalServerError : nat := 500.

(** [dbus.UnitStatus], the two fields that are read. *)
Record UnitStatus : Type := {
  Name : string;
  ActiveState : string;
}.

(** *** The host: resolver, service manager and file system

    [W] is the state of the world outside the process; every call may
    answer differently each time and may change the world.
    - [ResolveIPAddr network address]: the [IP] of the returned [IPAddr],
      or the error;
    - [ListUnitsContext]: the units, or the error;
    - [RestartUnitContext name mode]: [Err] when the call itself fails,
      otherwise [Ok job], the value then received from the result channel;
    - [ReadFile path]: [Err] when [os.Open] fails, otherwise the bytes the
      scanner reads from the file;
    - [filepath_Join]: [filepath.Join] of two elements. *)
Class Host (W : Type) : Type := {
  ResolveIPAddr : string -> string -> W -> result IP * W;
  ListUnitsContext : W -> result (list UnitStatus) * W;
  RestartUnitContext : string -> string -> W -> result string * W;
  ReadFile : string -> W -> result string * W;
  filepath_Join : string -> string -> string;
}.

(** Calls that leave the process, in the order they are made.  A restart
    is recorded with the registry as it stands when the call is issued. *)
Inductive Event : Type :=
  | EvResolve (host : string) (r : result IP)
  | EvRestart (unit : string) (r : result string) (registry : list Config).

(** The units restarted, in order. *)
Definition restarts (tr : list Event) : list string :=
  omap (fun e => match e with
                 | EvRestart u _ _ => Some u
                 | EvResolve _ _ => None
                 end) tr.

(** The names resolved with the answers of the resolver, in order. *)
Definition queries (tr : list Event) : list (string * result IP) :=
  omap (fun e => match e with
                 | EvResolve host r => Some (host, r)
                 | EvRestart _ _ _ => None
                 end) tr.

(** The answers of the resolver, in order. *)
Definition resolutions (tr : list Event) : list (result IP) :=
  (queries tr).*2.

(** [regexp.MustCompile(`^\s*Endpoint\s*=\s*(.+)$`)] *)
Definition endpointRegex : regex :=
  Cat Bol (Cat (Star space) (Cat (Lit "Endpoint") (Cat (Star space)
    (Cat (Lit "=") (Cat (Star space) (Cat (Group (Plus anyChar)) Eol)))))).

(** [regexp.MustCompile(`^\d+\.\d+\.\d+\.\d+`)] *)
Definition ipRegex : regex :=
  Cat Bol (Cat (Plus digit) (Cat (Lit ".") (Cat (Plus digit) (Cat (Lit ".")
    (Cat (Plus digit) (Cat (Lit ".") (Plus digit))))))).

(** [fmt.Sprintf("wg-quick@%s.service", interfaceName)], the unit that
    [restartWireGuardService] restarts. *)
Definition serviceName (interfaceName : string) : string :=
  "wg-quick@" +:+ interfaceName +:+ ".service".

(** The test on the name of a unit in [discoverWireGuardConfigs], and the
    interface name recovered from it. *)
Definition isTunnelUnit (name : string) : bool :=
  HasPrefix name "wg-quick@" && HasSuffix name ".service".

Definition interfaceNameOf (name : string) : string :=
  let interfaceName := TrimPrefix name "wg-quick@" in
  TrimSuffix interfaceName ".service".

Section Program.
Context {W : Type} `{!Host W}.

Record State : Type := {
  monitor : DDNSMonitor;
  world : W;
  trace : list Event;
}.

(** Computations of the process: a state monad over [State]. *)
Definition M (A : Type) : Type := State -> A * State.

Definition ret {A} (a : A) : M A := fun st => (a, st).

Definition bind {A B} (c : M A) (f : A -> M B) : M B :=
  fun st => let '(a, st1) := c st in f a st1.

Notation "x <- c ;; k" := (bind c (fun x => k))
  (at level 100, c at next level, right associativity).
Notation "c ;;; k" := (bind c (fun _ => k))
  (at level 100, right associativity).

(** [for _, x := range xs { body x }] *)
Fixpoint forEach {A} (xs : list A) (body : A -> M unit) : M unit :=
  match xs with
  | [] => ret tt
  | x :: rest => body x ;;; forEach rest body
  end.

Definition exec {A} (c : M A) (st : State) : State := snd (c st).

Definition getMonitor : M DDNSMonitor := fun st => (monitor st, st).

Definition putConfigs (cs : list Config) : M unit := fun st =>
  (tt, {| monitor := setConfigs cs (monitor st);
          world := world st;
          trace := trace st |}).

Definition resolveIPAddr (network address : string) : M (result IP) :=
  fun st =>
    let '(r, w) := ResolveIPAddr network address (world st) in
    (r, {| monitor := monitor st;
           world := w;
           trace := trace st ++ [EvResolve address r] |}).

Definition restartUnitContext (name mode : string) : M (result string) :=
  fun st =>
    let '(r, w) := RestartUnitContext name mode (world st) in
    (r, {| monitor := monitor st;
           world := w;
           trace := trace st ++ [EvRestart name r (configs (monitor st))] |}).

Definition listUnitsContext : M (result (list UnitStatus)) := fun st =>
  let '(r, w) := ListUnitsContext (world st) in
  (r, {| monitor := monitor st; world := w; trace := trace st |}).

Definition readFile (path : string) : M (result string) := fun st =>
  let '(r, w) := ReadFile path (world st) in
  (r, {| monitor := monitor st; world := w; trace := trace st |}).

(** The body of the scanning loop of [parseWireGuardConfig]. *)
Definition parseLine (interfaceName text : string) : M unit :=
  let line := TrimSpace text in
  let matches := FindStringSubmatch endpointRegex line in
  if length matches =? 2 then
    let endpoint := TrimSpace (nth 1 matches "") in
    match SplitHostPort endpoint with
    | Err _ => ret tt
    | Ok (host, _) =>
        if negb (MatchString ipRegex host) then
          r <- resolveIPAddr "ip4" host ;;
          let config :=
            {| Interface := interfaceName;
               Endpoint := endpoint;
               Hostname := host;
               LastIP := match r with Ok ip => ip | Err _ => [] end |} in
          m <- getMonitor ;;
          putConfigs (configs m ++ [config])
        else ret tt
    end
  else ret tt.

(** [parseWireGuardConfig] once the file is open: the scanning loop
    over the bytes [data] of the file, then [scanner.Err()]. *)
Definition scanConfig (interfaceName data : string) : M (option string) :=
  let '(lines, err) := scanLines data in
  forEach lines (parseLine interfaceName) ;;;
  ret err.

Definition parseWireGuardConfig (interfaceName configPath : string)
    : M (option string) :=
  file <- readFile configPath ;;
  match file with
  | Err e =>
      ret (Some ("failed to open config file " +:+ configPath +:+ ": " +:+ e))
  | Ok data => scanConfig interfaceName data
  end.

Definition parseSingleInterface : M (option string) :=
  m <- getMonitor ;;
  let configPath :=
    filepath_Join "/etc/wireguard" (singleInterface m +:+ ".conf") in
  err <- parseWireGuardConfig (singleInterface m) configPath ;;
  match err with
  | Some e =>
      ret (Some ("failed to parse config for " +:+ singleInterface m
                 +:+ ": " +:+ e))
  | None => ret None
  end.

Definition discoverWireGuardConfigs : M (option string) :=
  units <- listUnitsContext ;;
  match units with
  | Err e => ret (Some ("failed to list systemd units: " +:+ e))
  | Ok units =>
      forEach units (fun unit =>
        if isTunnelUnit (Name unit)
           && String.eqb (ActiveState unit) "active"
        then
          let interfaceName := interfaceNameOf (Name unit) in
          let configPath :=
            filepath_Join "/etc/wireguard" (interfaceName +:+ ".conf") in
          _ <- parseWireGuardConfig interfaceName configPath ;;
          ret tt
        else ret tt) ;;;
      ret None
  end.

(** [initialize], once the connection to the service manager is open. *)
Definition initialize : M (option string) :=
  m <- getMonitor ;;
  if negb (String.eqb (singleInterface m) "") then parseSingleInterface
  else discoverWireGuardConfigs.

Definition restartWireGuardService (interfaceName : string)
    : M (option string) :=
  let serviceName := serviceName interfaceName in
  r <- restartUnitContext serviceName "replace" ;;
  match r with
  | Err e =>
      ret (Some ("failed to restart service " +:+ serviceName +:+ ": " +:+ e))
  | Ok job =>
      if negb (String.eqb job "done")
      then ret (Some ("service restart job failed: " +:+ job))
      else ret None
  end.

(** The body of the loop of [checkEndpoints]: [config] points into the
    registry at index [i], so the assignment to [config.LastIP] updates
    the registry in place. *)
Definition checkEndpoint (i : nat) : M unit :=
  m <- getMonitor ;;
  match configs m !! i with
  | None => ret tt
  | Some config =>
      r <- resolveIPAddr "ip4" (Hostname config) ;;
      match r with
      | Err _ => ret tt
      | Ok currentIP =>
          if negb (Equal (LastIP config) currentIP) then
            putConfigs (<[i := setLastIP currentIP config]> (configs m)) ;;;
            _ <- restartWireGuardService (Interface config) ;;
            ret tt
          else ret tt
      end
  end.

Definition checkEndpoints : M unit :=
  m <- getMonitor ;;
  forEach (seq 0 (length (configs m))) checkEndpoint.

(** [c.ShouldBindJSON(&req)] on the decoded body: [None] when the body
    is not a JSON object with a string under the key [interface] (an absent
    key leaves the zero value); the [required] tag then rejects the
    zero value. *)
Definition ShouldBindJSON (body : option string) : result RestartRequest :=
  match body with
  | None => Err "invalid request body"
  | Some name =>
      if String.eqb name ""
      then Err "Key: 'RestartRequest.Interface' Error:Field validation for 'Interface' failed on the 'required' tag"
      else Ok {| ReqInterface := name |}
  end.

Definition found (cs : list Config) (name : string) : bool :=
  existsb (fun config => String.eqb (Interface config) name) cs.

Definition handleRestart (body : option string) : M Response :=
  match ShouldBindJSON body with
  | Err _ =>
      ret {| Status := StatusBadRequest;
             Body := {| Success := false;
                        Message := "Invalid request format" |} |}
  | Ok req =>
      m <- getMonitor ;;
      if negb (String.eqb (singleInterface m) "")
         && negb (String.eqb (ReqInterface req) (singleInterface m))
      then
        ret {| Status := StatusBadRequest;
               Body := {| Success := false;
                          Message := "Only interface '" +:+ singleInterface m
                                     +:+ "' is monitored" |} |}
      else if negb (found (configs m) (ReqInterface req)) then
        ret {| Status := StatusNotFound;
               Body := {| Success := false;
                          Message := "Interface '" +:+ ReqInterface req
                                     +:+ "' not found in monitored interfaces" |} |}
      else
        err <- restartWireGuardService (ReqInterface req) ;;
        match err with
        | Some e =>
            ret {| Status := StatusInternalServerError;
                   Body := {| Success := false;
                              Message := "Failed to restart interface: " +:+ e |} |}
        | None =>
            ret {| Status := StatusOK;
                   Body := {| Success := true;
                              Message := "Interface '" +:+ ReqInterface req
                                         +:+ "' restarted successfully" |} |}
        end
  end.

(** States of the process: after [initialize] on an empty registry, then
    after any number of change-detection passes and restart requests. *)
Inductive reachable : State -> Prop :=
  | reach_init st :
      configs (monitor st) = [] ->
      trace st = [] ->
      reachable (exec initialize st)
  | reach_check st :
      reachable st -> reachable (exec checkEndpoints st)
  | reach_api st body :
      reachable st -> reachable (exec (handleRestart body) st).

End Program.

(** ** The rest of the control surface: [main.go] *)

(** One element of the [interfaces] array of [handleListInterfaces]. *)
Record InterfaceInfo : Type := {
  info_interface : string;
  info_endpoint : string;
  info_hostname : string;
  info_last_ip : string;
}.

(** The JSON object that [handleListInterfaces] sends. *)
Record InterfacesResponse : Type := {
  single_interface_mode : bool;
  monitored_interface : string;
  interfaces : list InterfaceInfo;
  total_count : nat;
}.

(** What a request to the group [/api/v1] is answered with: the answer of
    [handleRestart], that of [handleListInterfaces], or
    [gin.H{"error": ...}] from the middleware. *)
Inductive Reply : Type :=
  | RestartReply (r : Response)
  | InterfacesReply (status : nat) (r : InterfacesResponse)
  | ErrorReply (status : nat) (error : string).

(** The two routes of the group: [POST /restart] with the decoded body,
    [GET /interfaces]. *)
Inductive Request : Type :=
  | PostRestart (body : option string)
  | GetInterfaces.

Definition StatusUnauthorized : nat := 401.

Section ControlSurface.
Context {W : Type} `{!Host W}.

(** [net.IP.String], the text form of an address. *)
Variable IPString : IP -> string.

Definition handleListInterfaces : @M W Reply :=
  bind getMonitor (fun m =>
  let interfaces :=
    map (fun config =>
           {| info_interface := Interface config;
              info_endpoint := Endpoint config;
              info_hostname := Hostname config;
              info_last_ip := IPString (LastIP config) |})
      (configs m) in
  ret (InterfacesReply StatusOK
         {| single_interface_mode := negb (String.eqb (singleInterface m) "");
            monitored_interface := singleInterface m;
            interfaces := interfaces;
            total_count := length interfaces |})).

(** [authMiddleware]: [header] is the value of [X-API-Key] ([c.GetHeader]
    gives the empty string when the header is absent); [next] is the rest
    of the chain, which [c.Abort] cuts. *)
Definition authMiddleware (header : option string) (next : @M W Reply)
    : @M W Reply :=
  bind getMonitor (fun m =>
  let key := match header with Some v => v | None => "" end in
  if negb (String.eqb key (apiKey m)) then
    ret (ErrorReply StatusUnauthorized "Invalid API key")
  else next).

(** The group [/api/v1] of [startHTTPServer]: the middleware, then the
    handler of the route. *)
Definition serveV1 (header : option string) (req : Request) : @M W Reply :=
  authMiddleware header
    match req with
    | PostRestart body =>
        bind (handleRestart body) (fun r => ret (RestartReply r))
    | GetInterfaces => handleListInterfaces
    end.

End ControlSurface.

(** ** Command line

    [parseArgs] walks [os.Args] from index 1.  [os.Exit(1)] after a
    message on standard error is the [Err] case, carrying the message. *)

Module Cli.

Record Args := mkArgs {
  singleInterface : string;
  listenAddress : string;
  listenPort : string;
  apiKey : string;
  logLevel : string;
  checkInterval : string;
  help : bool
}.

Definition empty : Args := mkArgs "" "" "" "" "" "" false.

Definition setHelp (a : Args) : Args :=
  mkArgs (singleInterface a) (listenAddress a) (listenPort a) (apiKey a)
         (logLevel a) (checkInterval a) true.

(** The [switch key] of the loop body. *)
Definition assign (key value : string) (a : Args) : result Args :=
  if String.eqb key "--single-interface" then
    Ok (mkArgs value (listenAddress a) (listenPort a) (apiKey a)
               (logLevel a) (checkInterval a) (help a))
  else if String.eqb key "--listen-address" then
    Ok (mkArgs (singleInterface a) value (listenPort a) (apiKey a)
               (logLevel a) (checkInterval a) (help a))
  else if String.eqb key "--listen-port" then
    Ok (mkArgs (singleInterface a) (listenAddress a) value (apiKey a)
               (logLevel a) (checkInterval a) (help a))
  else if String.eqb key "--api-key" then
    Ok (mkArgs (singleInterface a) (listenAddress a) (listenPort a) value
               (logLevel a) (checkInterval a) (help a))
  else if String.eqb key "--log-level" then
    Ok (mkArgs (singleInterface a) (listenAddress a) (listenPort a) (apiKey a)
               value (checkInterval a) (help a))
  else if String.eqb key "--check-interval" then
    Ok (mkArgs (singleInterface a) (listenAddress a) (listenPort a) (apiKey a)
               (logLevel a) value (help a))
  else Err ("Error: Unknown option '" +:+ key +:+ "'" +:+ String LF "").

(** The loop of [parseArgs] over the arguments from index [i] on; an
    option written without [=] takes the next argument as its value
    unless that one starts with two dashes. *)
Fixpoint loop (argv : list string) (a : Args) : result Args :=
  match argv with
  | [] => Ok a
  | arg :: rest =>
      if negb (HasPrefix arg "--") then
        if String.eqb arg "-h" || String.eqb arg "-help" then
          loop rest (setHelp a)
        else
          Err ("Error: Invalid argument format '" +:+ arg
               +:+ "'. Only double-dash (--) options are supported."
               +:+ String LF "")
      else if String.eqb arg "--help" then loop rest (setHelp a)
      else
        match SplitN arg "=" 2 with
        | [key; value] =>
            match assign key value a with
            | Ok a' => loop rest a'
            | Err e => Err e
            end
        | _ =>
            match rest with
            | next :: rest' =>
                if negb (HasPrefix next "--") then
                  match assign arg next a with
                  | Ok a' => loop rest' a'
                  | Err e => Err e
                  end
                else
                  match assign arg "" a with
                  | Ok a' => loop rest a'
                  | Err e => Err e
                  end
            | [] =>
                match assign arg "" a with
                | Ok a' => loop rest a'
                | Err e => Err e
                end
            end
        end
  end.


End Cli.

(** ** A concrete host, to run the program on examples

    The world is a clock counting the calls to the resolver and to the
    service manager; files, units, the resolver's answers (by clock and
    name) and the service manager's answers (by unit) are fixed tables. *)

Module TestHost.

Fixpoint lookupFile (files : list (string * string)) (path : string)
    : result string :=
  match files with
  | [] => Err "no such file or directory"
  | (p, data) :: rest =>
      if String.eqb p path then Ok data else lookupFile rest path
  end.

Definition host (files : list (string * string)) (units : list UnitStatus)
    (dns : nat -> string -> result IP) (svc : string -> result string)
    : Host nat :=
  {| ResolveIPAddr := fun _ address w => (dns w address, S w);
     ListUnitsContext := fun w => (Ok units, w);
     RestartUnitContext := fun name _ w => (svc name, S w);
     ReadFile := fun path w => (lookupFile files path, w);
     filepath_Join := fun dir name => dir +:+ "/" +:+ name |}.

Definition start (single : string) : @State nat :=
  {| monitor := {| configs := [];
                   singleInterface := single;
                   apiEnabled := false;
                   listenAddress := "";
                   listenPort := "";
                   apiKey := "" |};
     world := 0;
     trace := [] |}.

Definition withConfigs (cs : list Config) (single : string) : @State nat :=
  {| monitor := setConfigs cs (monitor (start single));
     world := 0;
     trace := [] |}.

Definition nl : string := String LF "".

Definition ip1 : IP := [x01; x02; x03; x04].
Definition ip2 : IP := [x05; x06; x07; x08].

(** Every name resolves to [ip1] before the clock reaches [n] and to [ip2]
    from then on. *)
Definition dnsSwitch (n : nat) : nat -> string -> result IP :=
  fun w _ => if w <? n then Ok ip1 else Ok ip2.

Definition dnsDown : nat -> string -> result IP :=
  fun _ _ => Err "no such host".

Definition svcDone : string -> result string := fun _ => Ok "done".
Definition svcFailed : string -> result string := fun _ => Ok "failed".

(** Configuration files. *)
Definition confTwoPeers : string :=
  "[Interface]" +:+ nl +:+ "ListenPort = 51820" +:+ nl
  +:+ "[Peer]" +:+ nl +:+ "Endpoint = a.example.com:51820" +:+ nl
  +:+ "[Peer]" +:+ nl +:+ "Endpoint = b.example.com:51820" +:+ nl.

Definition confNoHost : string :=
  "[Peer]" +:+ nl +:+ "Endpoint = :51820" +:+ nl.

Definition confLiteral : string :=
  "[Peer]" +:+ nl +:+ "Endpoint = 10.0.0.1:51820" +:+ nl.

Definition confDottedName : string :=
  "[Peer]" +:+ nl +:+ "Endpoint = 1.2.3.4.example.com:51820" +:+ nl.

Definition confOutOfRange : string :=
  "[Peer]" +:+ nl +:+ "Endpoint = 999.0.0.1:51820" +:+ nl.

Definition wg0Active : list UnitStatus :=
  [{| Name := "wg-quick@wg0.service"; ActiveState := "active" |}].

(** A registered entry whose last resolved address is [ip1]. *)
Definition vpn : Config :=
  {| Interface := "wg0";
     Endpoint := "vpn.example.com:51820";
     Hostname := "vpn.example.com";
     LastIP := ip1 |}.

(** Hosts: the resolver answers [ip2] and restarts fail; the resolver is
    down; the resolver answers [ip1] and restarts succeed; a host with
    the configuration of [wg0] on disk. *)
Definition moved : Host nat := host [] [] (dnsSwitch 0) svcFailed.
Definition down : Host nat := host [] [] dnsDown svcDone.
Definition steady : Host nat := host [] [] (dnsSwitch 100) svcDone.
Definition installed : Host nat :=
  host [("/etc/wireguard/wg0.conf", confTwoPeers +:+ confNoHost)]
    wg0Active (dnsSwitch 100) svcDone.

(** A host with the two peers of [wg0] on disk, on which every name
    resolves to [ip1] twice and to [ip2] from then on. *)
Definition twoPeersMoving : Host nat :=
  host [("/etc/wireguard/wg0.conf", confTwoPeers)]
    wg0Active (dnsSwitch 2) svcDone.

(** Every name resolves to the 16-byte IPv4-mapped form of [ip1]. *)
Definition dnsMapped : nat -> string -> result IP :=
  fun _ _ => Ok (v4InV6Prefix ++ ip1).

(** Units as the service manager may list them: a tunnel without a
    configuration on disk, an inactive tunnel, another service, and
    [wg0]. *)
Definition someUnits : list UnitStatus :=
  [{| Name := "wg-quick@wg9.service"; ActiveState := "active" |};
   {| Name := "wg-quick@wg1.service"; ActiveState := "inactive" |};
   {| Name := "ssh.service"; ActiveState := "active" |};
   {| Name := "wg-quick@wg0.service"; ActiveState := "active" |}].

(** Hosts: the resolver answers the mapped form of [ip1]; a host with the
    units [someUnits] on which every name moves from [ip1] to [ip2] after
    two answers. *)
Definition mapped : Host nat := host [] [] dnsMapped svcDone.
Definition drifting : Host nat :=
  host [("/etc/wireguard/wg0.conf", confTwoPeers)]
    someUnits (dnsSwitch 2) svcDone.

(** A monitor with the control surface enabled. *)
Definition guarded (cs : list Config) (single : string) : @State nat :=
  {| monitor := {| configs := cs;
                   singleInterface := single;
                   apiEnabled := true;
                   listenAddress := "127.0.0.1";
                   listenPort := "8080";
                   apiKey := "secret" |};
     world := 0;
     trace := [] |}.

(** [s] repeated [2^n] times; a line of [MaxScanTokenSize] bytes. *)
Fixpoint doubled (n : nat) (s : string) : string :=
  match n with
  | 0 => s
  | S n' => doubled n' (s +:+ s)
  end.

Definition longLine : string := doubled 16 "x".

End TestHost.

(** ** Vocabulary of the properties *)

Fixpoint allChars (p : ascii -> bool) (s : string) : bool :=
  match s with
  | EmptyString => true
  | String c s1 => p c && allChars p s1
  end.

(** A non-empty run of decimal digits. *)
Definition isDigits (d : string) : bool :=
  negb (String.eqb d "") && allChars digit d.

(** [host] is four groups of decimal digits separated by dots, followed
    by [rest]. *)
Definition dottedQuadThen (rest host : string) : Prop :=
  exists d1 d2 d3 d4,
    isDigits d1 = true /\ isDigits d2 = true /\
    isDigits d3 = true /\ isDigits d4 = true /\
    host = d1 +:+ "." +:+ d2 +:+ "." +:+ d3 +:+ "." +:+ d4 +:+ rest.

(** A literal IPv4 address in dotted-quad notation (whatever the values
    of the groups). *)
Definition dottedQuad (host : string) : Prop := dottedQuadThen "" host.

(** [host] begins with a dotted quad. *)
Definition dottedQuadPrefix (host : string) : Prop :=
  exists rest, dottedQuadThen rest host.

(** The line [text] matches [Endpoint = <value>]. *)
Definition matchesEndpoint (text value : string) : Prop :=
  exists whole,
    FindStringSubmatch endpointRegex (TrimSpace text) = [whole; value].

(** [host] is the host portion of the endpoint [value]. *)
Definition hostPortion (value host : string) : Prop :=
  exists port, SplitHostPort (TrimSpace value) = Ok (host, port).

(** What the scanning loop of [parseWireGuardConfig] registers for a
    line: the endpoint and its host, if the line passes the tests of the
    loop body. *)
Definition lineEndpoint (text : string) : option (string * string) :=
  let matches := FindStringSubmatch endpointRegex (TrimSpace text) in
  if length matches =? 2 then
    let endpoint := TrimSpace (nth 1 matches "") in
    match SplitHostPort endpoint with
    | Err _ => None
    | Ok (host, _) =>
        if MatchString ipRegex host then None else Some (endpoint, host)
    end
  else None.

(** The attempt of [ipRegex] at the beginning of [host], unfolded. *)
Definition ipAttempt (host : string) : option (list string) :=
  plus digit host 0 (fun s1 p1 =>
  lit "." s1 p1 (fun s2 p2 =>
  plus digit s2 p2 (fun s3 p3 =>
  lit "." s3 p3 (fun s4 p4 =>
  plus digit s4 p4 (fun s5 p5 =>
  lit "." s5 p5 (fun s6 p6 =>
  plus digit s6 p6 (fun _ p7 => Some [slice host 0 p7]))))))).

(** What one iteration of [checkEndpoints] makes of the entry [c] when the
    resolver answers [r], and whether it restarts the interface. *)
Definition drifted (c : Config) (r : result IP) : bool :=
  match r with
  | Ok ip => negb (Equal (LastIP c) ip)
  | Err _ => false
  end.

Definition settle (c : Config) (r : result IP) : Config :=
  match r with
  | Ok ip => if Equal (LastIP c) ip then c else setLastIP ip c
  | Err _ => c
  end.

(** The events that a computation adds to the trace of [st]. *)
Definition added {W} (st st1 : @State W) : list Event :=
  drop (length (trace st)) (trace st1).

(** What is restarted for an entry and an answer. *)
Definition restartOf (cr : Config * result IP) : option string :=
  if drifted cr.1 cr.2 then Some (serviceName (Interface cr.1)) else None.

(** The state after the iteration of [checkEndpoints] on the entry [c]
    registered at index [i]. *)
Definition afterEndpoint {W} `{!Host W} (i : nat) (c : Config)
    (st : @State W) : @State W :=
  let answer := ResolveIPAddr "ip4" (Hostname c) (world st) in
  if drifted c (fst answer) then
    let registry := <[i := settle c (fst answer)]> (configs (monitor st)) in
    let unit := serviceName (Interface c) in
    let outcome := RestartUnitContext unit "replace" (snd answer) in
    {| monitor := setConfigs registry (monitor st);
       world := snd outcome;
       trace := trace st
                ++ [EvResolve (Hostname c) (fst answer);
                    EvRestart unit (fst outcome) registry] |}
  else
    {| monitor := monitor st;
       world := snd answer;
       trace := trace st ++ [EvResolve (Hostname c) (fst answer)] |}.

(** The unit restarted for an entry whose last resolved address is not,
    byte for byte, what it was before the pass. *)
Definition changedUnit (p : Config * Config) : option string :=
  if bytesEqual (LastIP p.1) (LastIP p.2) then None
  else Some (serviceName (Interface p.1)).

(** The test of [discoverWireGuardConfigs] on a unit. *)
Definition accepted (unit : UnitStatus) : bool :=
  isTunnelUnit (Name unit) && String.eqb (ActiveState unit) "active".

(** The body of the loop of [discoverWireGuardConfigs]. *)
Definition discoverUnit {W} `{!Host W} (unit : UnitStatus)
    : @M W Datatypes.unit :=
  if accepted unit then
    let interfaceName := interfaceNameOf (Name unit) in
    let configPath :=
      filepath_Join "/etc/wireguard" (interfaceName +:+ ".conf") in
    bind (parseWireGuardConfig interfaceName configPath) (fun _ => ret tt)
  else ret tt.

(** The same state in another world. *)
Definition inWorld {W} (w : W) (st : @State W) : @State W :=
  {| monitor := monitor st; world := w; trace := trace st |}.

(** The hostname of an entry is the host portion of its endpoint and does
    not begin with a dotted quad. *)
Definition hostOfEndpoint (c : Config) : Prop :=
  ~ dottedQuadPrefix (Hostname c)
  /\ exists port, SplitHostPort (Endpoint c) = Ok (Hostname c, port).

(** From [st] to [st1] the registry has only grown, by entries under
    interface names that satisfy [P], nothing has been restarted and the
    other fields of the monitor are what they were. *)
Definition grows {W} (P : string -> Prop) (st st1 : @State W) : Prop :=
  exists entries,
    configs (monitor st1) = configs (monitor st) ++ entries
    /\ Forall (fun c => P (Interface c) /\ hostOfEndpoint c) entries
    /\ restarts (trace st1) = restarts (trace st)
    /\ setConfigs (configs (monitor st)) (monitor st1) = monitor st.

(** The interface names that discovery registers entries under, given the
    units listed. *)
Definition ofActiveUnit (units : list UnitStatus) (name : string) : Prop :=
  exists unit,
    unit ∈ units /\ ActiveState unit = "active"
    /\ Name unit = serviceName name.

(** What holds of the states of the process: the hostnames are the hosts
    of the endpoints, every unit restarted so far is the unit of a
    registered interface, and in pinned mode every entry is under the
    pinned interface. *)
Definition sound {W} (st : @State W) : Prop :=
  Forall hostOfEndpoint (configs (monitor st))
  /\ Forall (fun u => u ∈ serviceName <$> (Interface <$> configs (monitor st)))
       (restarts (trace st))
  /\ (singleInterface (monitor st) <> "" ->
      Forall (fun c => Interface c = singleInterface (monitor st))
        (configs (monitor st))).

(** A printable ASCII character other than the space. *)
Definition graphic (c : ascii) : bool :=
  let n := N_of_ascii c in
  ((33 <=? n) && (n <=? 126))%N.

(** A non-empty run of printable ASCII characters other than the space. *)
Definition isWord (s : string) : bool :=
  negb (String.eqb s "") && allChars graphic s.

(** [c] does not occur in [s]. *)
Definition without (c : ascii) (s : string) : bool :=
  allChars (fun a => negb (Ascii.eqb a c)) s.

(** The attempt of [endpointRegex] at the beginning of [t], unfolded. *)
Definition endpointAttempt (t : string) : option (list string) :=
  star space t 0 (fun s1 p1 =>
  lit "Endpoint" s1 p1 (fun s2 p2 =>
  star space s2 p2 (fun s3 p3 =>
  lit "=" s3 p3 (fun s4 p4 =>
  star space s4 p4 (fun s5 p5 =>
  plus anyChar s5 p5 (fun s6 p6 =>
  match s6 with
  | EmptyString => Some [slice t 0 p6; slice t p5 p6]
  | String _ _ => None
  end)))))).

(** The text made of the lines [ls], each followed by [eol]. *)
Fixpoint joinWith (eol : string) (ls : list string) : string :=
  match ls with
  | [] => EmptyString
  | l :: rest => l +:+ eol +:+ joinWith eol rest
  end.

(** A line that the scanner delivers: no line feed in it, and short of
    [MaxScanTokenSize] bytes with [extra] more bytes. *)
Definition scannable (extra : nat) (l : string) : Prop :=
  without LF l = true
  /\ (N.of_nat (String.length l + extra) < MaxScanTokenSize)%N.

(** * Properties *)

(** ** Strings *)

Section StringFacts.

Lemma string_app_nil_l (b : string) : "" +:+ b = b.
Proof. reflexivity. Qed.

Lemma string_app_cons (c : ascii) (a b : string) :
  String c a +:+ b = String c (a +:+ b).
Proof. reflexivity. Qed.

Lemma string_length_app (a b : string) :
  String.length (a +:+ b) = String.length a + String.length b.
Proof.
  induction a as [|c a IH]; rewrite ?string_app_nil_l, ?string_app_cons; simpl;
    [reflexivity | now rewrite IH].
Qed.

Lemma string_app_nil_r (a : string) : a +:+ "" = a.
Proof.
  induction a as [|c a IH]; rewrite ?string_app_nil_l, ?string_app_cons;
    [reflexivity | now rewrite IH].
Qed.

Lemma string_app_assoc (a b c : string) : (a +:+ b) +:+ c = a +:+ b +:+ c.
Proof.
  induction a as [|x a IH]; rewrite ?string_app_nil_l, ?string_app_cons;
    [reflexivity | now rewrite IH].
Qed.

Lemma substring_all (s : string) :
  String.substring 0 (String.length s) s = s.
Proof. induction s as [|c s IH]; simpl; [reflexivity | now rewrite IH]. Qed.

(** [(a ++ b)[:len(a)] = a] *)
Lemma substring_app_l (a b : string) :
  String.substring 0 (String.length a) (a +:+ b) = a.
Proof.
  induction a as [|c a IH]; rewrite ?string_app_nil_l, ?string_app_cons; simpl.
  - now destruct b.
  - now rewrite IH.
Qed.

(** [(a ++ b)[len(a):len(a)+n] = b[:n]] *)
Lemma substring_app_r (a b : string) (n : nat) :
  String.substring (String.length a) n (a +:+ b) = String.substring 0 n b.
Proof.
  induction a as [|c a IH]; rewrite ?string_app_nil_l, ?string_app_cons; simpl;
    [reflexivity | apply IH].
Qed.

Lemma substring_app_skip (a b : string) (n m : nat) :
  String.substring (String.length a + n) m (a +:+ b) = String.substring n m b.
Proof.
  induction a as [|c a IH]; rewrite ?string_app_nil_l, ?string_app_cons; simpl;
    [reflexivity | apply IH].
Qed.

(** A suffix no longer than [t] is a suffix of [p ++ t] when it is one
    of [t]. *)
Lemma HasSuffix_app_long (p t x : string) :
  String.length x <= String.length t ->
  HasSuffix (p +:+ t) x = HasSuffix t x.
Proof.
  intros Hle. unfold HasSuffix, slice. rewrite string_length_app.
  replace (String.length p + String.length t - String.length x)
    with (String.length p + (String.length t - String.length x)) by lia.
  rewrite substring_app_skip.
  replace (String.length p + String.length t
           - (String.length p + (String.length t - String.length x)))
    with (String.length t - (String.length t - String.length x)) by lia.
  f_equal. transitivity true; [|symmetry]; apply Nat.leb_le; lia.
Qed.

Lemma HasPrefix_app (p s : string) : HasPrefix (p +:+ s) p = true.
Proof.
  unfold HasPrefix, slice. rewrite Nat.sub_0_r, substring_app_l, string_length_app.
  rewrite String.eqb_refl, andb_true_r. apply Nat.leb_le. lia.
Qed.

Lemma TrimPrefix_app (p s : string) : TrimPrefix (p +:+ s) p = s.
Proof.
  unfold TrimPrefix. rewrite HasPrefix_app. unfold slice.
  rewrite string_length_app, substring_app_r.
  replace (_ + _ - _) with (String.length s) by lia.
  apply substring_all.
Qed.

Lemma HasSuffix_app (s x : string) : HasSuffix (s +:+ x) x = true.
Proof.
  unfold HasSuffix, slice. rewrite string_length_app.
  replace (String.length s + String.length x - String.length x)
    with (String.length s) by lia.
  replace (String.length s + String.length x - String.length s)
    with (String.length x) by lia.
  rewrite substring_app_r, substring_all, String.eqb_refl, andb_true_r.
  apply Nat.leb_le. lia.
Qed.

Lemma TrimSuffix_app (s x : string) : TrimSuffix (s +:+ x) x = s.
Proof.
  unfold TrimSuffix. rewrite HasSuffix_app. unfold slice.
  rewrite string_length_app, Nat.sub_0_r.
  replace (String.length s + String.length x - String.length x)
    with (String.length s) by lia.
  apply substring_app_l.
Qed.

(** A string is its first [n] bytes followed by the rest. *)
Lemma substring_split (s : string) (n : nat) :
  n <= String.length s ->
  String.substring 0 n s +:+ String.substring n (String.length s - n) s = s.
Proof.
  revert n. induction s as [|c s IH]; intros [|n] Hn; simpl in *;
    rewrite ?string_app_nil_l, ?string_app_cons; try reflexivity; try lia.
  - now rewrite substring_all.
  - rewrite IH by lia. reflexivity.
Qed.

Lemma HasPrefix_inv (s p : string) :
  HasPrefix s p = true -> s = p +:+ TrimPrefix s p.
Proof.
  intros H. unfold TrimPrefix. rewrite H.
  unfold HasPrefix, slice in *. apply andb_true_iff in H as [Hl He].
  apply Nat.leb_le in Hl. apply String.eqb_eq in He.
  rewrite Nat.sub_0_r in He.
  rewrite <- He at 1. symmetry. now apply substring_split.
Qed.

Lemma HasSuffix_inv (s x : string) :
  HasSuffix s x = true -> s = TrimSuffix s x +:+ x.
Proof.
  intros H. unfold TrimSuffix. rewrite H.
  unfold HasSuffix, slice in *. apply andb_true_iff in H as [Hl He].
  apply Nat.leb_le in Hl. apply String.eqb_eq in He.
  rewrite Nat.sub_0_r.
  set (n := String.length s - String.length x) in *.
  assert (Hn : n <= String.length s) by (unfold n; lia).
  clearbody n. clear Hl. subst x. symmetry.
  now apply substring_split.
Qed.

End StringFacts.

(** ** Unit names *)

Section UnitNames.

Lemma serviceName_is_tunnel_unit (s : string) :
  isTunnelUnit (serviceName s) = true.
Proof.
  unfold isTunnelUnit, serviceName. rewrite HasPrefix_app. simpl.
  rewrite <- string_app_assoc. apply HasSuffix_app.
Qed.

Lemma interfaceNameOf_serviceName (s : string) :
  interfaceNameOf (serviceName s) = s.
Proof.
  unfold interfaceNameOf, serviceName.
  rewrite TrimPrefix_app. apply TrimSuffix_app.
Qed.

(** The other direction, on the unit names that discovery accepts. *)
Lemma serviceName_interfaceNameOf (name : string) :
  isTunnelUnit name = true -> serviceName (interfaceNameOf name) = name.
Proof.
  unfold isTunnelUnit. intros [Hp Hs]%andb_true_iff.
  apply HasPrefix_inv in Hp.
  set (t := TrimPrefix name "wg-quick@") in *.
  assert (Ht : HasSuffix t ".service" = true).
  { rewrite Hp in Hs. clearbody t.
    destruct (Nat.le_gt_cases (String.length ".service") (String.length t))
      as [Hle|Hgt]; [now rewrite HasSuffix_app_long in Hs|].
    exfalso. clear Hp.
    destruct t as [|c1 [|c2 [|c3 [|c4 [|c5 [|c6 [|c7 [|c8 t]]]]]]]];
      try discriminate; simpl in Hgt; lia. }
  unfold interfaceNameOf, serviceName. fold t.
  apply HasSuffix_inv in Ht. rewrite <- Ht. now rewrite <- Hp.
Qed.

(** C8.  For every interface name [s], the unit name built by the restart
    path, [wg-quick@s.service], is accepted by the test of the discovery
    path, and the discovery path recovers exactly [s] from it: stripping
    the prefix and the suffix undoes prepending and appending them. *)
Theorem C8_unit_name_round_trip (s : string) :
  serviceName s = "wg-quick@" +:+ s +:+ ".service"
  /\ isTunnelUnit (serviceName s) = true
  /\ interfaceNameOf (serviceName s) = s
  /\ TrimSuffix (TrimPrefix ("wg-quick@" +:+ s +:+ ".service") "wg-quick@")
       ".service" = s.
Proof.
  split; [reflexivity|]. split; [apply serviceName_is_tunnel_unit|].
  split; apply interfaceNameOf_serviceName.
Qed.

End UnitNames.

(** ** Regular expressions *)

Section RegexpFacts.
Context {A : Type}.
Implicit Types (p : ascii -> bool) (k : string -> nat -> option A).

Lemma allChars_app p (a b : string) :
  allChars p (a +:+ b) = allChars p a && allChars p b.
Proof.
  induction a as [|c a IH]; rewrite ?string_app_nil_l, ?string_app_cons; simpl;
    [reflexivity | now rewrite IH, andb_assoc].
Qed.

(** A literal consumes itself. *)
Lemma lit_app (l rest : string) pos k :
  lit l (l +:+ rest) pos k = k rest (pos + String.length l).
Proof.
  revert pos. induction l as [|a l IH]; intros pos;
    rewrite ?string_app_nil_l, ?string_app_cons; simpl.
  - now rewrite Nat.add_0_r.
  - rewrite Ascii.eqb_refl, IH. f_equal. lia.
Qed.

Lemma lit_Some (l s : string) pos k m :
  lit l s pos k = Some m ->
  exists rest, s = l +:+ rest /\ k rest (pos + String.length l) = Some m.
Proof.
  revert s pos. induction l as [|a l IH]; intros s pos H; simpl in H.
  - exists s. now rewrite Nat.add_0_r.
  - destruct s as [|c s]; [discriminate|].
    destruct (Ascii.eqb_spec c a) as [->|]; [|discriminate].
    apply IH in H as (rest & -> & H). exists rest. split; [reflexivity|].
    simpl. now replace (pos + S (String.length l)) with (S pos + String.length l) by lia.
Qed.

(** A greedy repetition that can continue after the whole run succeeds. *)
Lemma star_run p (d rest : string) pos k :
  allChars p d = true ->
  is_Some (star p rest (pos + String.length d) k) ->
  is_Some (star p (d +:+ rest) pos k).
Proof.
  revert pos. induction d as [|c d IH]; intros pos Hd Hk;
    rewrite ?string_app_nil_l, ?string_app_cons; simpl in *.
  - now rewrite Nat.add_0_r in Hk.
  - apply andb_true_iff in Hd as [Hc Hd]. rewrite Hc.
    destruct (IH (S pos) Hd) as [m ->]; [|eauto].
    now replace (S pos + String.length d) with (pos + S (String.length d)) by lia.
Qed.

Lemma star_total p (s : string) pos k :
  (forall s1 pos1, is_Some (k s1 pos1)) -> is_Some (star p s pos k).
Proof.
  intros Hk. revert pos. induction s as [|c s IH]; intros pos; simpl; [apply Hk|].
  destruct (p c); [|apply Hk].
  destruct (IH (S pos)) as [m ->]. eauto.
Qed.

(** Where the next byte is not in the class, the repetition is empty. *)
Lemma star_stop p (c : ascii) (s : string) pos k :
  p c = false -> star p (String c s) pos k = k (String c s) pos.
Proof. intros H. simpl. now rewrite H. Qed.

Lemma star_Some p (s : string) pos k m :
  star p s pos k = Some m ->
  exists d rest, s = d +:+ rest /\ allChars p d = true
                 /\ k rest (pos + String.length d) = Some m.
Proof.
  revert pos. induction s as [|c s IH]; intros pos H; simpl in H.
  - exists "", "". rewrite Nat.add_0_r. auto.
  - destruct (p c) eqn:Hc.
    + destruct (star p s (S pos) k) as [m1|] eqn:Hs.
      * injection H as ->. apply IH in Hs as (d & rest & -> & Hd & Hk).
        exists (String c d), rest. rewrite string_app_cons. simpl. rewrite Hc, Hd.
        repeat split.
        now replace (pos + S (String.length d)) with (S pos + String.length d) by lia.
      * exists "", (String c s). rewrite Nat.add_0_r. auto.
    + exists "", (String c s). rewrite Nat.add_0_r. auto.
Qed.

Lemma plus_run p (d rest : string) pos k :
  d <> "" -> allChars p d = true ->
  is_Some (star p rest (pos + String.length d) k) ->
  is_Some (plus p (d +:+ rest) pos k).
Proof.
  destruct d as [|c d]; [congruence|]. intros _ Hd Hk.
  rewrite string_app_cons. simpl in *. apply andb_true_iff in Hd as [-> Hd].
  apply star_run; [assumption|].
  now replace (S pos + String.length d) with (pos + S (String.length d)) by lia.
Qed.

Lemma plus_Some p (s : string) pos k m :
  plus p s pos k = Some m ->
  exists d rest, s = d +:+ rest /\ d <> "" /\ allChars p d = true
                 /\ k rest (pos + String.length d) = Some m.
Proof.
  destruct s as [|c s]; [discriminate|]. simpl.
  destruct (p c) eqn:Hc; [|discriminate]. intros H.
  apply star_Some in H as (d & rest & -> & Hd & Hk).
  exists (String c d), rest. rewrite string_app_cons. simpl. rewrite Hc, Hd.
  repeat split; [discriminate|].
  now replace (pos + S (String.length d)) with (S pos + String.length d) by lia.
Qed.

End RegexpFacts.

Section SearchFacts.

(** A pattern anchored at the beginning only matches at offset 0. *)
Lemma search_Bol (r : regex) (text s : string) (pos : nat) :
  pos <> 0 -> search (Cat Bol r) text s pos = [].
Proof.
  revert pos. induction s as [|c s IH]; intros pos Hpos; simpl;
    unfold attempt; simpl; destruct pos; try congruence; simpl; auto.
Qed.

Lemma FindStringSubmatch_Bol (r : regex) (text : string) :
  FindStringSubmatch (Cat Bol r) text
  = match attempt (Cat Bol r) text text 0 with Some m => m | None => [] end.
Proof.
  unfold FindStringSubmatch. destruct text as [|c text]; simpl.
  - now destruct (attempt _ _ _ _).
  - destruct (attempt _ _ _ _); [reflexivity|]. now apply search_Bol.
Qed.

End SearchFacts.

Section IpRegexFacts.

Lemma isDigits_inv (d : string) :
  isDigits d = true -> d <> "" /\ allChars digit d = true.
Proof.
  unfold isDigits. intros [Hn Hd]%andb_true_iff. split; [|assumption].
  intros ->. discriminate.
Qed.

Lemma isDigits_intro (d : string) :
  d <> "" -> allChars digit d = true -> isDigits d = true.
Proof.
  intros Hn Hd. unfold isDigits. rewrite Hd, andb_true_r.
  destruct (String.eqb_spec d ""); [contradiction | reflexivity].
Qed.

Lemma MatchString_ipRegex (host : string) :
  MatchString ipRegex host = if ipAttempt host is Some _ then true else false.
Proof.
  unfold MatchString, ipRegex. rewrite FindStringSubmatch_Bol.
  change (attempt _ host host 0) with (ipAttempt host).
  destruct (ipAttempt host) as [m|] eqn:H; [|reflexivity].
  unfold ipAttempt in H.
  repeat (first [apply plus_Some in H as (? & ? & _ & _ & _ & H)
                | apply lit_Some in H as (? & _ & H)]).
  now injection H as <-.
Qed.

(** Digits, then a dot: the greedy group stops at the dot. *)
Lemma digits_then_dot {A} (d rest : string) pos
    (k : string -> nat -> option A) :
  isDigits d = true ->
  is_Some (k rest (pos + String.length d + 1)) ->
  is_Some (plus digit (d +:+ "." +:+ rest) pos
             (fun s1 p1 => lit "." s1 p1 k)).
Proof.
  intros [Hn Hd]%isDigits_inv Hk. apply plus_run; [assumption..|].
  change ("." +:+ rest) with (String "." rest).
  rewrite star_stop by reflexivity.
  change (String "." rest) with ("." +:+ rest). now rewrite lit_app.
Qed.

Lemma ipRegex_complete (host : string) :
  dottedQuadPrefix host -> MatchString ipRegex host = true.
Proof.
  intros (rest & d1 & d2 & d3 & d4 & H1 & H2 & H3 & H4 & ->).
  rewrite MatchString_ipRegex.
  assert (H : is_Some (ipAttempt
    (d1 +:+ "." +:+ d2 +:+ "." +:+ d3 +:+ "." +:+ d4 +:+ rest))).
  { unfold ipAttempt.
    do 3 (apply digits_then_dot; [assumption|]).
    apply isDigits_inv in H4 as [Hn Hd].
    apply plus_run; [assumption..|]. apply star_total. eauto. }
  now destruct H as [m ->].
Qed.

Lemma ipRegex_sound (host : string) :
  MatchString ipRegex host = true -> dottedQuadPrefix host.
Proof.
  rewrite MatchString_ipRegex.
  destruct (ipAttempt host) as [m|] eqn:H; [intros _ | discriminate].
  unfold ipAttempt in H.
  apply plus_Some in H as (d1 & r1 & -> & N1 & D1 & H).
  apply lit_Some in H as (r2 & -> & H).
  apply plus_Some in H as (d2 & r3 & -> & N2 & D2 & H).
  apply lit_Some in H as (r4 & -> & H).
  apply plus_Some in H as (d3 & r5 & -> & N3 & D3 & H).
  apply lit_Some in H as (r6 & -> & H).
  apply plus_Some in H as (d4 & r7 & -> & N4 & D4 & H).
  exists r7, d1, d2, d3, d4. repeat split; auto using isDigits_intro.
Qed.

(** A dotted quad is made of digits and dots only. *)
Lemma dottedQuad_chars (host : string) :
  dottedQuad host ->
  allChars (fun c => digit c || Ascii.eqb c ".") host = true.
Proof.
  assert (Hd : forall d, allChars digit d = true ->
                 allChars (fun c => digit c || Ascii.eqb c ".") d = true).
  { induction d as [|c d IH]; simpl; [reflexivity|].
    intros [-> Hd]%andb_true_iff. simpl. now apply IH. }
  intros (d1 & d2 & d3 & d4 & H1 & H2 & H3 & H4 & ->).
  apply isDigits_inv in H1 as [_ H1], H2 as [_ H2], H3 as [_ H3],
    H4 as [_ H4].
  rewrite !allChars_app, (Hd _ H1), (Hd _ H2), (Hd _ H3), (Hd _ H4).
  reflexivity.
Qed.

(** The filter of the parser accepts exactly the hosts that begin with
    four dot-separated groups of digits. *)
Lemma ipRegex_spec (host : string) :
  MatchString ipRegex host = true <-> dottedQuadPrefix host.
Proof. split; [apply ipRegex_sound | apply ipRegex_complete]. Qed.

End IpRegexFacts.

(** ** The configuration parser *)

Section MonadFacts.
Context {W : Type} `{!Host W}.

Lemma forEach_unit {A} (xs : list A) (body : A -> M unit) (st : @State W) :
  forEach xs body st = (tt, exec (forEach xs body) st).
Proof. unfold exec. now destruct (forEach xs body st) as [[] st1]. Qed.

Lemma exec_forEach_cons {A} (x : A) (xs : list A) (body : A -> M unit)
    (st : @State W) :
  exec (forEach (x :: xs) body) st
  = exec (forEach xs body) (exec (body x) st).
Proof.
  unfold exec. simpl. unfold bind. now destruct (body x st) as [[] st1].
Qed.

Lemma exec_forEach_app {A} (xs ys : list A) (body : A -> M unit)
    (st : @State W) :
  exec (forEach (xs ++ ys) body) st
  = exec (forEach ys body) (exec (forEach xs body) st).
Proof.
  revert st. induction xs as [|x xs IH]; intros st; [reflexivity|].
  rewrite <- app_comm_cons, !exec_forEach_cons. apply IH.
Qed.

End MonadFacts.

Section ParserFacts.
Context {W : Type} `{!Host W}.
Implicit Types (st : @State W) (text value host endpoint : string).

(** The tests of the loop body, read off the line. *)
Lemma lineEndpoint_Some text endpoint host :
  lineEndpoint text = Some (endpoint, host)
  <-> exists value,
        matchesEndpoint text value
        /\ endpoint = TrimSpace value
        /\ hostPortion value host
        /\ ~ dottedQuadPrefix host.
Proof.
  unfold lineEndpoint, matchesEndpoint, hostPortion. split.
  - destruct (FindStringSubmatch endpointRegex (TrimSpace text))
      as [|whole [|value [|]]]; try discriminate. simpl.
    destruct (SplitHostPort (TrimSpace value)) as [[h port]|] eqn:Hs;
      [|discriminate].
    destruct (MatchString ipRegex h) eqn:Hip; [discriminate|].
    intros [= <- <-]. exists value. repeat split; eauto.
    intros Hq%ipRegex_complete. congruence.
  - intros (value & [whole ->] & -> & [port Hs] & Hq). simpl. rewrite Hs.
    destruct (MatchString ipRegex host) eqn:Hip; [|reflexivity].
    now apply ipRegex_sound in Hip.
Qed.

(** A line with an endpoint whose host begins with a dotted quad is one
    that the loop body skips. *)
Lemma lineEndpoint_dotted text value host :
  matchesEndpoint text value -> hostPortion value host ->
  dottedQuadPrefix host -> lineEndpoint text = None.
Proof.
  intros [whole Hm] [port Hs] Hq. unfold lineEndpoint. rewrite Hm. simpl.
  rewrite Hs. now rewrite (ipRegex_complete _ Hq).
Qed.

Lemma parseLine_skip interfaceName text st :
  lineEndpoint text = None -> parseLine interfaceName text st = (tt, st).
Proof.
  unfold lineEndpoint, parseLine.
  destruct (length _ =? 2); [|reflexivity].
  destruct (SplitHostPort _) as [[h port]|]; [|reflexivity].
  now destruct (MatchString ipRegex h).
Qed.

Lemma parseLine_register interfaceName text endpoint host st :
  lineEndpoint text = Some (endpoint, host) ->
  parseLine interfaceName text st
  = (tt,
     {| monitor :=
          setConfigs
            (configs (monitor st)
             ++ [{| Interface := interfaceName;
                    Endpoint := endpoint;
                    Hostname := host;
                    LastIP :=
                      match fst (ResolveIPAddr "ip4" host (world st)) with
                      | Ok ip => ip
                      | Err _ => []
                      end |}])
            (monitor st);
        world := snd (ResolveIPAddr "ip4" host (world st));
        trace := trace st
                 ++ [EvResolve host
                       (fst (ResolveIPAddr "ip4" host (world st)))] |}).
Proof.
  unfold lineEndpoint, parseLine.
  destruct (length _ =? 2); [|discriminate].
  destruct (SplitHostPort _) as [[h port]|]; [|discriminate].
  destruct (MatchString ipRegex h); [discriminate|].
  intros [= <- <-]. simpl. unfold bind, resolveIPAddr.
  now destruct (ResolveIPAddr "ip4" h (world st)) as [r w].
Qed.

Lemma forEach_parseLine interfaceName (lines : list string) st :
  exists entries,
    configs (monitor (exec (forEach lines (parseLine interfaceName)) st))
    = configs (monitor st) ++ entries
    /\ map (fun c => (Endpoint c, Hostname c)) entries
       = omap lineEndpoint lines
    /\ Forall (fun c => Interface c = interfaceName) entries.
Proof.
  revert st. induction lines as [|text lines IH]; intros st.
  - exists []. simpl. now rewrite app_nil_r.
  - rewrite exec_forEach_cons. simpl.
    destruct (lineEndpoint text) as [[endpoint host]|] eqn:Hl.
    + unfold exec at 2. rewrite (parseLine_register _ _ _ _ _ Hl).
      cbn [snd].
      match goal with |- context [exec _ ?s] =>
        destruct (IH s) as (es & E1 & E2 & E3) end.
      eexists (_ :: es). rewrite E1. simpl. rewrite <- app_assoc. simpl.
      split; [reflexivity|]. split; [now rewrite E2|].
      constructor; [reflexivity | assumption].
    + unfold exec at 2. rewrite (parseLine_skip _ _ _ Hl). apply IH.
Qed.

Lemma forEach_parseLine_hosts interfaceName (lines : list string) st :
  exists entries,
    configs (monitor (exec (forEach lines (parseLine interfaceName)) st))
    = configs (monitor st) ++ entries
    /\ Forall (fun c => ~ dottedQuadPrefix (Hostname c)) entries.
Proof.
  destruct (forEach_parseLine interfaceName lines st) as (es & E1 & E2 & _).
  exists es. split; [assumption|]. clear E1.
  revert es E2. induction lines as [|text lines IH]; intros es E2.
  - destruct es; [constructor | discriminate].
  - simpl in E2. destruct (lineEndpoint text) as [[endpoint host]|] eqn:Hl.
    + destruct es as [|c es]; [discriminate|]. simpl in E2.
      injection E2 as He Hh E2. constructor; [|now apply IH].
      apply lineEndpoint_Some in Hl as (value & _ & _ & _ & Hq).
      congruence.
    + now apply IH.
Qed.

Lemma exec_scanConfig interfaceName data st :
  exec (scanConfig interfaceName data) st
  = exec (forEach (fst (scanLines data)) (parseLine interfaceName)) st.
Proof.
  unfold scanConfig. destruct (scanLines data) as [lines err].
  unfold exec, bind, ret. simpl.
  now destruct (forEach lines (parseLine interfaceName) st).
Qed.

Lemma scanConfig_error interfaceName data st :
  fst (scanConfig interfaceName data st) = snd (scanLines data).
Proof.
  unfold scanConfig. destruct (scanLines data) as [lines err].
  unfold bind, ret. simpl.
  now destruct (forEach lines (parseLine interfaceName) st).
Qed.

(** C1 (amended).  The parser registers one entry per scanned line that
    passes the tests of the loop body ([lineEndpoint_Some]: the line
    matches [Endpoint = <value>], the value splits into host and port,
    and the host does not begin with a dotted quad), appended to the
    registry in the order of the lines, each under the interface name;
    no line replaces the entry of an earlier one.  The error returned is
    the scanner's. *)
Theorem C1_one_entry_per_endpoint_line interfaceName data st :
  exists entries,
    configs (monitor (exec (scanConfig interfaceName data) st))
    = configs (monitor st) ++ entries
    /\ map (fun c => (Endpoint c, Hostname c)) entries
       = omap lineEndpoint (fst (scanLines data))
    /\ length entries = length (omap lineEndpoint (fst (scanLines data)))
    /\ Forall (fun c => Interface c = interfaceName) entries
    /\ fst (scanConfig interfaceName data st) = snd (scanLines data).
Proof.
  rewrite exec_scanConfig.
  destruct (forEach_parseLine interfaceName (fst (scanLines data)) st)
    as (es & E1 & E2 & E3).
  exists es. repeat split; try assumption.
  - now rewrite <- E2, length_map.
  - apply scanConfig_error.
Qed.

(** C4.  A line [Endpoint = <value>] whose host portion is a literal
    IPv4 address in dotted-quad notation registers nothing: the loop body
    leaves the state as it is, the parser ends in the state it would
    reach without that line, and no entry that it adds has that host. *)
Theorem C4_literal_ipv4_not_registered interfaceName data text value host
    (before after : list string) st :
  fst (scanLines data) = before ++ text :: after ->
  matchesEndpoint text value ->
  hostPortion value host ->
  dottedQuad host ->
  (forall st1 : @State W, parseLine interfaceName text st1 = (tt, st1))
  /\ exec (scanConfig interfaceName data) st
     = exec (forEach (before ++ after) (parseLine interfaceName)) st
  /\ exists entries,
       configs (monitor (exec (scanConfig interfaceName data) st))
       = configs (monitor st) ++ entries
       /\ Forall (fun c => Hostname c <> host) entries.
Proof.
  intros Hl Hm Hh Hq.
  assert (Hp : dottedQuadPrefix host) by (now exists "").
  assert (Hskip : forall st1 : @State W,
             parseLine interfaceName text st1 = (tt, st1)).
  { intros st1. apply parseLine_skip. eapply lineEndpoint_dotted; eauto. }
  split; [exact Hskip|]. rewrite exec_scanConfig, Hl. split.
  - rewrite !exec_forEach_app, exec_forEach_cons. unfold exec at 2.
    now rewrite Hskip.
  - destruct (forEach_parseLine_hosts interfaceName
                (before ++ text :: after) st) as (es & E1 & E2).
    exists es. split; [assumption|].
    eapply Forall_impl; [exact E2|]. intros c Hc Heq. cbv beta in Hc.
    now rewrite Heq in Hc.
Qed.

(** C10.  The filter only tests whether the host begins with four
    dot-separated groups of digits: whatever follows the fourth group
    and whatever the groups are worth, [ipRegex] matches and the line
    registers nothing. *)
Theorem C10_filter_tests_a_prefix interfaceName text value host st :
  matchesEndpoint text value ->
  hostPortion value host ->
  dottedQuadPrefix host ->
  MatchString ipRegex host = true
  /\ parseLine interfaceName text st = (tt, st).
Proof.
  intros Hm Hh Hq. split; [now apply ipRegex_complete|].
  apply parseLine_skip. eapply lineEndpoint_dotted; eauto.
Qed.

(** When the scanner reaches the end of the text and exactly one of its
    lines is an [Endpoint = host:port] line, with a host that does not
    begin with a dotted quad, the parser adds exactly one entry, for that
    host. *)
Lemma single_endpoint_registered interfaceName data text value host
    (before after : list string) st :
  scanLines data = (before ++ text :: after, None) ->
  matchesEndpoint text value ->
  hostPortion value host ->
  ~ dottedQuadPrefix host ->
  Forall (fun l => forall v h, matchesEndpoint l v -> ~ hostPortion v h)
    (before ++ after) ->
  exists c,
    configs (monitor (exec (scanConfig interfaceName data) st))
    = configs (monitor st) ++ [c]
    /\ Interface c = interfaceName
    /\ Endpoint c = TrimSpace value
    /\ Hostname c = host.
Proof.
  intros Hl Hm Hh Hq Hothers.
  destruct (forEach_parseLine interfaceName (fst (scanLines data)) st)
    as (es & E1 & E2 & E3).
  rewrite <- exec_scanConfig in E1.
  rewrite Hl in E2. simpl in E2.
  assert (Hnone : forall ls, Forall (fun l => forall v h,
              matchesEndpoint l v -> ~ hostPortion v h) ls ->
            omap lineEndpoint ls = []).
  { induction 1 as [|l ls Hl1 _ IH]; [reflexivity|]. simpl.
    destruct (lineEndpoint l) as [[e h]|] eqn:He; [|assumption].
    apply lineEndpoint_Some in He as (v & Hv & _ & Hp & _).
    now destruct (Hl1 v h Hv). }
  apply Forall_app in Hothers as [Hb Ha].
  assert (Ht : lineEndpoint text = Some (TrimSpace value, host)).
  { apply lineEndpoint_Some. exists value. auto. }
  assert (Hall : omap lineEndpoint (before ++ text :: after)
                 = [(TrimSpace value, host)]).
  { rewrite omap_app, (Hnone _ Hb). cbn [omap list_omap app].
    now rewrite Ht, (Hnone _ Ha). }
  rewrite Hall in E2.
  destruct es as [|c [|]]; try discriminate. injection E2 as He Hn.
  exists c. rewrite E1. inversion E3; subst. auto.
Qed.

End ParserFacts.

(** ** The change-detection pass *)

Section AddressFacts.

Lemma bytesEqual_refl (a : list byte) : bytesEqual a a = true.
Proof.
  induction a as [|x a IH]; simpl; [reflexivity|].
  rewrite IH, andb_true_r. now apply Byte.byte_dec_lb.
Qed.

Lemma Equal_refl (ip : IP) : Equal ip ip = true.
Proof. unfold Equal. rewrite Nat.eqb_refl. apply bytesEqual_refl. Qed.

Lemma settle_settled (c : Config) (r : result IP) :
  drifted (settle c r) r = false.
Proof.
  destruct r as [ip|e]; simpl; [|reflexivity].
  destruct (Equal (LastIP c) ip) eqn:He; simpl.
  - now rewrite He.
  - now rewrite Equal_refl.
Qed.

Lemma settle_same (c : Config) (r : result IP) :
  drifted c r = false -> settle c r = c.
Proof.
  destruct r as [ip|e]; simpl; [|reflexivity].
  now destruct (Equal (LastIP c) ip).
Qed.

End AddressFacts.

Section PassFacts.
Context {W : Type} `{!Host W}.
Implicit Types (st : @State W) (c : Config) (i j : nat).

Lemma checkEndpoint_step i c st :
  configs (monitor st) !! i = Some c ->
  exec (checkEndpoint i) st = afterEndpoint i c st.
Proof.
  intros Hc. unfold exec, checkEndpoint, afterEndpoint, bind, getMonitor.
  rewrite Hc. unfold resolveIPAddr.
  destruct (ResolveIPAddr "ip4" (Hostname c) (world st)) as [[ip|e] w];
    simpl; [|reflexivity].
  destruct (Equal (LastIP c) ip); simpl; [reflexivity|].
  unfold bind, putConfigs, restartWireGuardService, bind, restartUnitContext.
  simpl.
  destruct (RestartUnitContext _ _ w) as [[job|e] w2]; simpl;
    [|rewrite <- app_assoc; reflexivity].
  destruct (negb (String.eqb job "done")); simpl;
    rewrite <- app_assoc; reflexivity.
Qed.

Lemma checkEndpoint_out_of_range i st :
  configs (monitor st) !! i = None -> exec (checkEndpoint i) st = st.
Proof.
  intros Hc. unfold exec, checkEndpoint, bind, getMonitor. now rewrite Hc.
Qed.

Lemma setConfigs_id (m : DDNSMonitor) : setConfigs (configs m) m = m.
Proof. now destruct m. Qed.

Lemma setConfigs_twice (cs cs1 : list Config) (m : DDNSMonitor) :
  setConfigs cs (setConfigs cs1 m) = setConfigs cs m.
Proof. reflexivity. Qed.

Lemma afterEndpoint_configs i c st :
  configs (monitor st) !! i = Some c ->
  configs (monitor (afterEndpoint i c st))
  = <[i := settle c (fst (ResolveIPAddr "ip4" (Hostname c) (world st)))]>
      (configs (monitor st)).
Proof.
  intros Hc. unfold afterEndpoint.
  destruct (drifted c _) eqn:Hd; simpl; [reflexivity|].
  rewrite (settle_same _ _ Hd). symmetry. now apply list_insert_id.
Qed.

Lemma afterEndpoint_monitor i c st :
  setConfigs (configs (monitor st)) (monitor (afterEndpoint i c st))
  = monitor st.
Proof.
  unfold afterEndpoint. destruct (drifted c _); simpl;
    rewrite ?setConfigs_twice; apply setConfigs_id.
Qed.

(** The events of one iteration: the query, then the restart if the
    address has changed. *)
Lemma afterEndpoint_trace i c st :
  let r := fst (ResolveIPAddr "ip4" (Hostname c) (world st)) in
  exists evs,
    trace (afterEndpoint i c st) = trace st ++ evs
    /\ queries evs = [(Hostname c, r)]
    /\ restarts evs
       = if drifted c r then [serviceName (Interface c)] else [].
Proof.
  intros r. unfold afterEndpoint. fold r.
  destruct (drifted c r); simpl; eexists; split; try reflexivity; auto.
Qed.

(** The iterations from index [a] on, in terms of the answers [rs] that
    the resolver gives. *)
Lemma pass_from (k a : nat) st :
  a + k = length (configs (monitor st)) ->
  exists (rs : list (result IP)) (evs : list Event),
    let st1 := exec (forEach (seq a k) checkEndpoint) st in
    let cs := configs (monitor st) in
    length rs = k
    /\ trace st1 = trace st ++ evs
    /\ queries evs = zip (Hostname <$> drop a cs) rs
    /\ restarts evs = omap restartOf (zip (drop a cs) rs)
    /\ configs (monitor st1) = take a cs ++ zip_with settle (drop a cs) rs
    /\ setConfigs cs (monitor st1) = monitor st.
Proof.
  revert a st. induction k as [|k IH]; intros a st Hlen.
  - exists [], []. cbn [seq forEach]. unfold exec, ret. cbn [snd length].
    rewrite drop_ge, take_ge by lia. rewrite !app_nil_r.
    repeat split; try reflexivity. apply setConfigs_id.
  - destruct (lookup_lt_is_Some_2 (configs (monitor st)) a) as [c Hc];
      [lia|].
    cbn [seq]. rewrite exec_forEach_cons, (checkEndpoint_step _ _ _ Hc).
    set (r := fst (ResolveIPAddr "ip4" (Hostname c) (world st))).
    pose proof (afterEndpoint_configs a c st Hc) as Hcs. fold r in Hcs.
    pose proof (afterEndpoint_monitor a c st) as Hmon.
    destruct (afterEndpoint_trace a c st) as (ev & Ht & Hq & Hr).
    fold r in Hq, Hr.
    set (st0 := afterEndpoint a c st) in *.
    destruct (IH (S a) st0) as (rs & evs & L & T & Q & R & C & M).
    { rewrite Hcs, length_insert. lia. }
    cbv zeta in *. rewrite Hcs in Q, R, C, M.
    rewrite drop_insert_lt in Q, R, C by lia.
    rewrite (take_S_r _ _ (settle c r)) in C
      by (apply list_lookup_insert_eq; lia).
    rewrite take_insert_ge in C by lia.
    exists (r :: rs), (ev ++ evs). cbv zeta.
    rewrite (drop_S _ _ _ Hc). simpl.
    repeat split.
    + now rewrite L.
    + now rewrite T, Ht, app_assoc.
    + unfold queries in *. now rewrite omap_app, Hq, Q.
    + unfold restarts in *. rewrite omap_app, Hr, R.
      unfold restartOf at 2. simpl. now destruct (drifted c r).
    + now rewrite C, <- app_assoc.
    + now rewrite <- Hmon, <- M, setConfigs_twice.
Qed.

Lemma exec_checkEndpoints st :
  exec checkEndpoints st
  = exec (forEach (seq 0 (length (configs (monitor st)))) checkEndpoint) st.
Proof. reflexivity. Qed.

(** An iteration only writes the entry of its own index. *)
Lemma checkEndpoint_configs i st :
  exists c1, configs (monitor (exec (checkEndpoint i) st))
             = <[i := c1]> (configs (monitor st)).
Proof.
  destruct (configs (monitor st) !! i) as [c|] eqn:Hc.
  - rewrite (checkEndpoint_step _ _ _ Hc), (afterEndpoint_configs _ _ _ Hc).
    eauto.
  - rewrite (checkEndpoint_out_of_range _ _ Hc).
    exists (Build_Config "" "" "" []). symmetry. apply list_insert_ge.
    now apply lookup_ge_None.
Qed.

Lemma forEach_checkEndpoint_length (js : list nat) st :
  length (configs (monitor (exec (forEach js checkEndpoint) st)))
  = length (configs (monitor st)).
Proof.
  revert st. induction js as [|j js IH]; intros st; [reflexivity|].
  rewrite exec_forEach_cons, IH.
  destruct (checkEndpoint_configs j st) as [c1 ->]. apply length_insert.
Qed.

Lemma forEach_checkEndpoint_other (js : list nat) i st :
  i ∉ js ->
  configs (monitor (exec (forEach js checkEndpoint) st)) !! i
  = configs (monitor st) !! i.
Proof.
  revert st. induction js as [|j js IH]; intros st Hi; [reflexivity|].
  apply not_elem_of_cons in Hi as [Hij Hi].
  rewrite exec_forEach_cons, IH by assumption.
  destruct (checkEndpoint_configs j st) as [c1 ->].
  now apply list_lookup_insert_ne.
Qed.

Lemma serviceName_inj (a b : string) : serviceName a = serviceName b -> a = b.
Proof.
  intros H. rewrite <- (interfaceNameOf_serviceName a), H.
  apply interfaceNameOf_serviceName.
Qed.

Lemma settle_Interface c (r : result IP) : Interface (settle c r) = Interface c.
Proof. destruct r as [ip|e]; simpl; [|reflexivity]. now destruct (Equal _ _). Qed.

(** The names of the interfaces of the entries, by index. *)
Lemma checkEndpoint_interfaces i st :
  Interface <$> configs (monitor (exec (checkEndpoint i) st))
  = Interface <$> configs (monitor st).
Proof.
  destruct (configs (monitor st) !! i) as [c|] eqn:Hc.
  - rewrite (checkEndpoint_step _ _ _ Hc), (afterEndpoint_configs _ _ _ Hc).
    rewrite list_fmap_insert, settle_Interface. apply list_insert_id.
    now rewrite list_lookup_fmap, Hc.
  - now rewrite (checkEndpoint_out_of_range _ _ Hc).
Qed.

Lemma forEach_checkEndpoint_interfaces (js : list nat) st :
  Interface <$> configs (monitor (exec (forEach js checkEndpoint) st))
  = Interface <$> configs (monitor st).
Proof.
  revert st. induction js as [|j js IH]; intros st; [reflexivity|].
  now rewrite exec_forEach_cons, IH, checkEndpoint_interfaces.
Qed.

(** The iterations over the indices [js] only restart units of interfaces
    registered at those indices. *)
Lemma forEach_checkEndpoint_events (js : list nat) st :
  exists evs,
    trace (exec (forEach js checkEndpoint) st) = trace st ++ evs
    /\ Forall (fun u => exists j name,
                 j ∈ js
                 /\ (Interface <$> configs (monitor st)) !! j = Some name
                 /\ u = serviceName name)
         (restarts evs).
Proof.
  revert st. induction js as [|j js IH]; intros st.
  - exists []. split; [now rewrite app_nil_r | constructor].
  - rewrite exec_forEach_cons.
    destruct (IH (exec (checkEndpoint j) st)) as (evs & T & F).
    rewrite checkEndpoint_interfaces in F.
    assert (Hstep : exists ev,
      trace (exec (checkEndpoint j) st) = trace st ++ ev
      /\ Forall (fun u => exists name,
                   (Interface <$> configs (monitor st)) !! j = Some name
                   /\ u = serviceName name) (restarts ev)).
    { destruct (configs (monitor st) !! j) as [c|] eqn:Hc.
      - rewrite (checkEndpoint_step _ _ _ Hc).
        destruct (afterEndpoint_trace j c st) as (ev & Ht & _ & Hr).
        exists ev. split; [assumption|]. rewrite Hr.
        destruct (drifted c _); constructor; [|constructor].
        exists (Interface c). now rewrite list_lookup_fmap, Hc.
      - rewrite (checkEndpoint_out_of_range _ _ Hc). exists [].
        split; [now rewrite app_nil_r | constructor]. }
    destruct Hstep as (ev & Tj & Fj).
    exists (ev ++ evs). split; [now rewrite T, Tj, app_assoc|].
    unfold restarts in *. rewrite omap_app. apply Forall_app. split.
    + eapply Forall_impl; [exact Fj|]. intros u (name & Hn & ->).
      exists j, name. split; [left | auto].
    + eapply Forall_impl; [exact F|]. intros u (j1 & name & Hj & Hn & ->).
      exists j1, name. split; [now right | auto].
Qed.

(** The pass, cut at the iteration of index [i]. *)
Lemma checkEndpoints_split i st :
  i < length (configs (monitor st)) ->
  exec checkEndpoints st
  = exec (forEach (seq (S i) (length (configs (monitor st)) - S i))
            checkEndpoint)
      (exec (checkEndpoint i)
         (exec (forEach (seq 0 i) checkEndpoint) st)).
Proof.
  intros Hi. rewrite exec_checkEndpoints.
  replace (length (configs (monitor st)))
    with (i + S (length (configs (monitor st)) - S i)) at 1 by lia.
  rewrite seq_app, exec_forEach_app. cbn [seq]. now rewrite exec_forEach_cons.
Qed.

Lemma before_entry i c st :
  configs (monitor st) !! i = Some c ->
  configs (monitor (exec (forEach (seq 0 i) checkEndpoint) st)) !! i = Some c.
Proof.
  intros Hc. rewrite forEach_checkEndpoint_other; [assumption|].
  rewrite elem_of_seq. lia.
Qed.

Lemma after_entry i n st :
  configs (monitor (exec (forEach (seq (S i) n) checkEndpoint) st)) !! i
  = configs (monitor st) !! i.
Proof. apply forEach_checkEndpoint_other. rewrite elem_of_seq. lia. Qed.

(** C6.  When the resolver fails on the hostname of the entry at index
    [i], the iteration leaves the registry as it is and issues no
    restart: it only records the failed query.  The pass goes on with
    the next index, and the entry is unchanged when the pass ends. *)
Theorem C6_failed_resolution_is_skipped i c (e : string) (w1 : W) st :
  configs (monitor st) !! i = Some c ->
  let before := exec (forEach (seq 0 i) checkEndpoint) st in
  ResolveIPAddr "ip4" (Hostname c) (world before) = (Err e, w1) ->
  let during :=
    {| monitor := monitor before;
       world := w1;
       trace := trace before ++ [EvResolve (Hostname c) (Err e)] |} in
  exec (checkEndpoint i) before = during
  /\ restarts (added before during) = []
  /\ configs (monitor during) !! i = Some c
  /\ exec checkEndpoints st
     = exec (forEach (seq (S i) (length (configs (monitor st)) - S i))
               checkEndpoint) during
  /\ configs (monitor (exec checkEndpoints st)) !! i = Some c.
Proof.
  intros Hc before Hres during.
  pose proof (before_entry _ _ _ Hc) as Hb. fold before in Hb.
  assert (Hstep : exec (checkEndpoint i) before = during).
  { rewrite (checkEndpoint_step _ _ _ Hb). unfold afterEndpoint.
    now rewrite Hres. }
  split; [exact Hstep|]. split.
  { unfold added, during. cbn [trace]. now rewrite drop_app_length. }
  split; [exact Hb|].
  assert (Hlen : i < length (configs (monitor st)))
    by (apply lookup_lt_is_Some_1; eauto).
  rewrite (checkEndpoints_split i st Hlen). fold before. rewrite Hstep.
  split; [reflexivity|]. now rewrite after_entry.
Qed.

(** A whole pass in terms of the answers of the resolver. *)
Lemma pass_spec st :
  let st1 := exec checkEndpoints st in
  let cs := configs (monitor st) in
  exists rs : list (result IP),
    length rs = length cs
    /\ queries (added st st1) = zip (Hostname <$> cs) rs
    /\ resolutions (added st st1) = rs
    /\ restarts (added st st1) = omap restartOf (zip cs rs)
    /\ configs (monitor st1) = zip_with settle cs rs
    /\ setConfigs cs (monitor st1) = monitor st.
Proof.
  intros st1 cs.
  destruct (pass_from (length cs) 0 st eq_refl)
    as (rs & evs & L & T & Q & R & C & M).
  cbv zeta in *.
  change (exec (forEach _ checkEndpoint) st) with st1 in T, C, M.
  fold cs in T, Q, R, C, M.
  rewrite drop_0 in Q, R, C. rewrite take_0 in C. simpl in C.
  assert (Ha : added st st1 = evs)
    by (unfold added; now rewrite T, drop_app_length).
  exists rs. rewrite Ha. repeat split; try assumption.
  unfold resolutions. rewrite Q. apply snd_zip.
  rewrite length_fmap. lia.
Qed.

(** C3.  Take a registered entry [c] at index [i] whose last resolved
    address is [A], and a pass in which the resolver, asked for the
    hostname of [c] at the iteration of [i], answers [B], an address
    other than [A] (for [IP.Equal]).  Then that iteration stores [B] as
    the last resolved address of the entry, whose other fields stay, and
    issues one restart, of the unit of the interface of [c], and nothing
    else; the registry that the restart call finds already holds [B];
    the pass goes on with the next index from there, and the entry still
    holds [B] when the pass ends.  The outcome of the restart call is
    whatever the service manager answers: nothing here depends on it.

    Over the whole pass the units restarted are, in the order of the
    registry, those of the entries whose answer is an address other than
    the stored one, one restart for each such entry: the restart of the
    iteration of [i] stands between those of the entries before [i] and
    those of the entries after [i].  So the unit of [c] is restarted
    exactly once in the pass when no other entry is registered under the
    interface of [c], and may be restarted again when there is one. *)
Theorem C3_drift_restarts_once i c (A B : IP) (w1 : W) st :
  configs (monitor st) !! i = Some c ->
  LastIP c = A ->
  let before := exec (forEach (seq 0 i) checkEndpoint) st in
  ResolveIPAddr "ip4" (Hostname c) (world before) = (Ok B, w1) ->
  Equal A B = false ->
  let unit := serviceName (Interface c) in
  let outcome := RestartUnitContext unit "replace" w1 in
  let updated :=
    {| Interface := Interface c;
       Endpoint := Endpoint c;
       Hostname := Hostname c;
       LastIP := B |} in
  let registry := <[i := updated]> (configs (monitor before)) in
  let during :=
    {| monitor := setConfigs registry (monitor before);
       world := snd outcome;
       trace := trace before
                ++ [EvResolve (Hostname c) (Ok B);
                    EvRestart unit (fst outcome) registry] |} in
  let final := exec checkEndpoints st in
  let names := Interface <$> configs (monitor st) in
  exec (checkEndpoint i) before = during
  /\ restarts (added before during) = [unit]
  /\ LastIP <$> registry !! i = Some B
  /\ final
     = exec (forEach (seq (S i) (length (configs (monitor st)) - S i))
               checkEndpoint) during
  /\ configs (monitor final) !! i = Some updated
  /\ LastIP <$> configs (monitor final) !! i = Some B
  /\ restarts (added st final)
     = omap restartOf
         (zip (configs (monitor st)) (resolutions (added st final)))
  /\ restarts (added st final)
     = restarts (added st before) ++ unit :: restarts (added during final)
  /\ Forall (fun u => exists j name,
               j < i /\ names !! j = Some name /\ u = serviceName name)
       (restarts (added st before))
  /\ Forall (fun u => exists j name,
               i < j /\ names !! j = Some name /\ u = serviceName name)
       (restarts (added during final))
  /\ ((forall j, j <> i -> names !! j <> Some (Interface c)) ->
      (unit ∉ restarts (added st before))
      /\ (unit ∉ restarts (added during final))).
Proof.
  intros Hc HA before Hres Hne unit outcome updated registry during final
    names.
  pose proof (before_entry _ _ _ Hc) as Hb. fold before in Hb.
  assert (Hi : i < length (configs (monitor before)))
    by (now apply lookup_lt_is_Some_1; eauto).
  assert (Hstep : exec (checkEndpoint i) before = during).
  { rewrite (checkEndpoint_step _ _ _ Hb). unfold afterEndpoint.
    rewrite Hres. simpl. rewrite HA, Hne. reflexivity. }
  assert (Hreg : registry !! i = Some updated)
    by (now apply list_lookup_insert_eq).
  split; [exact Hstep|]. split.
  { unfold added, during. cbn [trace]. now rewrite drop_app_length. }
  split; [now rewrite Hreg|].
  assert (Hlen : i < length (configs (monitor st)))
    by (apply lookup_lt_is_Some_1; eauto).
  assert (Hfinal : final
                   = exec (forEach
                             (seq (S i) (length (configs (monitor st)) - S i))
                             checkEndpoint) during).
  { unfold final. rewrite (checkEndpoints_split i st Hlen). fold before.
    now rewrite Hstep. }
  assert (Hend : configs (monitor final) !! i = Some updated)
    by (now rewrite Hfinal, after_entry).
  split; [exact Hfinal|]. split; [exact Hend|].
  split; [now rewrite Hend|].
  split.
  { destruct (pass_spec st) as (rs & _ & _ & Q & R & _). fold final in Q, R.
    now rewrite Q. }
  destruct (forEach_checkEndpoint_events (seq 0 i) st) as (ev1 & T1 & F1).
  fold before in T1.
  destruct (forEach_checkEndpoint_events
              (seq (S i) (length (configs (monitor st)) - S i)) during)
    as (ev2 & T2 & F2).
  rewrite <- Hfinal in T2.
  assert (Hnames : Interface <$> configs (monitor during) = names).
  { unfold during, registry. cbn [monitor configs setConfigs].
    rewrite list_fmap_insert. cbn [Interface].
    unfold before. rewrite forEach_checkEndpoint_interfaces.
    apply list_insert_id. unfold names. now rewrite list_lookup_fmap, Hc. }
  rewrite Hnames in F2. fold names in F1.
  assert (E1 : added st before = ev1)
    by (unfold added; now rewrite T1, drop_app_length).
  assert (E2 : added during final = ev2)
    by (unfold added; now rewrite T2, drop_app_length).
  rewrite E1, E2.
  assert (G1 : Forall (fun u => exists j name,
                         j < i /\ names !! j = Some name
                         /\ u = serviceName name) (restarts ev1)).
  { eapply Forall_impl; [exact F1|]. intros u (j & name & Hj & Hn & ->).
    exists j, name. apply elem_of_seq in Hj. repeat split; [lia | auto]. }
  assert (G2 : Forall (fun u => exists j name,
                         i < j /\ names !! j = Some name
                         /\ u = serviceName name) (restarts ev2)).
  { eapply Forall_impl; [exact F2|]. intros u (j & name & Hj & Hn & ->).
    exists j, name. apply elem_of_seq in Hj. repeat split; [lia | auto]. }
  split.
  { unfold added. rewrite T2. unfold during at 1. cbn [trace]. rewrite T1.
    rewrite <- !app_assoc, drop_app_length. unfold restarts.
    now rewrite !omap_app. }
  split; [exact G1|]. split; [exact G2|].
  intros Huniq.
  assert (Hother : forall evs,
            Forall (fun u => exists j name,
                      j <> i /\ names !! j = Some name
                      /\ u = serviceName name) (restarts evs) ->
            unit ∉ restarts evs).
  { intros evs F Hin. rewrite Forall_forall in F.
    destruct (F _ Hin) as (j & name & Hj & Hn & Hu).
    apply serviceName_inj in Hu. subst name. now apply (Huniq j). }
  split; apply Hother.
  - eapply Forall_impl; [exact G1|]. intros u (j & name & Hj & Hn & ->).
    exists j, name. repeat split; [lia | auto].
  - eapply Forall_impl; [exact G2|]. intros u (j & name & Hj & Hn & ->).
    exists j, name. repeat split; [lia | auto].
Qed.

(** A pass that gets the answers of the pass before it changes nothing
    and restarts nothing, whatever the answers are. *)
Lemma second_pass_quiet st :
  let st1 := exec checkEndpoints st in
  let st2 := exec checkEndpoints st1 in
  resolutions (added st1 st2) = resolutions (added st st1) ->
  restarts (added st1 st2) = [] /\ monitor st2 = monitor st1.
Proof.
  intros st1 st2 Hsame.
  destruct (pass_spec st) as (rs & L & _ & Q & _ & C & _).
  destruct (pass_spec st1) as (rs2 & L2 & _ & Q2 & R2 & C2 & M2).
  fold st1 in Q, C. fold st2 in Q2, R2, C2, M2. fold st1 in Q2, R2.
  rewrite Q, Q2 in Hsame. subst rs2. clear Q Q2.
  assert (Hquiet : forall cs (rs0 : list (result IP)),
             omap restartOf (zip (zip_with settle cs rs0) rs0) = []
             /\ zip_with settle (zip_with settle cs rs0) rs0
                = zip_with settle cs rs0).
  { induction cs as [|c cs IH]; intros [|r rs0]; simpl; auto.
    destruct (IH rs0) as [E1 E2]. split.
    - unfold restartOf at 1. cbn [fst snd]. rewrite settle_settled.
      exact E1.
    - rewrite E2. f_equal. apply settle_same, settle_settled. }
  rewrite C in R2, C2. destruct (Hquiet (configs (monitor st)) rs) as [E1 E2].
  rewrite E1 in R2. rewrite E2, <- C in C2. split; [assumption|].
  etrans; [|exact M2]. rewrite <- C2. symmetry. apply setConfigs_id.
Qed.

(** C7.  Two passes in a row in which every resolution succeeds, with
    the same address for each endpoint both times: the second pass
    issues no restart and leaves the registry as the first pass left
    it. *)
Theorem C7_second_pass_is_quiet (ips : list IP) st :
  let st1 := exec checkEndpoints st in
  let st2 := exec checkEndpoints st1 in
  resolutions (added st st1) = Ok <$> ips ->
  resolutions (added st1 st2) = Ok <$> ips ->
  restarts (added st1 st2) = []
  /\ configs (monitor st2) = configs (monitor st1)
  /\ monitor st2 = monitor st1.
Proof.
  intros st1 st2 H1 H2.
  pose proof (second_pass_quiet st) as Hq. cbv zeta in Hq.
  fold st1 in Hq. fold st2 in Hq.
  destruct Hq as [Hr Hm]; [congruence|].
  split; [assumption|]. split; [now rewrite Hm | assumption].
Qed.

Lemma handleRestart_configs (body : option string) st :
  configs (monitor (exec (handleRestart body) st)) = configs (monitor st).
Proof.
  unfold exec, handleRestart.
  destruct (ShouldBindJSON body) as [req|e]; [|reflexivity].
  unfold bind, getMonitor.
  destruct (negb _ && negb _); [reflexivity|].
  destruct (negb (found _ _)); [reflexivity|].
  unfold restartWireGuardService, bind, restartUnitContext.
  destruct (RestartUnitContext _ _ _) as [[job|e] w]; simpl;
    [|reflexivity].
  now destruct (negb (String.eqb job "done")).
Qed.

(** C2 (amended).  From every reachable state, a change-detection pass
    keeps the entries of the registry, their order and their interface
    name, endpoint and hostname; it asks the resolver once per entry, for
    the hostname of the entry; where the resolver fails the last resolved
    address is left as it is, and where it succeeds the address is either
    left as it is (same address) or becomes the answer.  A restart
    request leaves the registry as it is. *)
Theorem C2_address_overwritten_only_on_success st :
  reachable st ->
  let st1 := exec checkEndpoints st in
  length (configs (monitor st1)) = length (configs (monitor st))
  /\ (forall i c,
        configs (monitor st) !! i = Some c ->
        exists c1 r,
          configs (monitor st1) !! i = Some c1
          /\ queries (added st st1) !! i = Some (Hostname c, r)
          /\ Interface c1 = Interface c
          /\ Endpoint c1 = Endpoint c
          /\ Hostname c1 = Hostname c
          /\ match r with
             | Err _ => LastIP c1 = LastIP c
             | Ok ip =>
                 if Equal (LastIP c) ip then LastIP c1 = LastIP c
                 else LastIP c1 = ip
             end)
  /\ (forall body,
        configs (monitor (exec (handleRestart body) st))
        = configs (monitor st)).
Proof.
  intros _ st1.
  split; [apply forEach_checkEndpoint_length|].
  split; [|intros body; apply handleRestart_configs].
  intros i c Hc.
  destruct (pass_spec st) as (rs & L & Q & _ & _ & C & _). fold st1 in Q, C.
  destruct (lookup_lt_is_Some_2 rs i) as [r Hr].
  { rewrite L. apply lookup_lt_is_Some_1. eauto. }
  exists (settle c r), r. rewrite C, Q. split.
  { rewrite lookup_zip_with, Hc. simpl. now rewrite Hr. }
  split.
  { apply lookup_zip_Some. now rewrite list_lookup_fmap, Hc. }
  destruct r as [ip|e]; simpl; [|auto].
  destruct (Equal (LastIP c) ip); auto.
Qed.

End PassFacts.


(** ** The restart request of the control surface *)

Section ApiFacts.
Context {W : Type} `{!Host W}.

(** A body that does not bind is answered without any call. *)
Lemma handleRestart_invalid (body : option string) (st : @State W) :
  isErr (ShouldBindJSON body) = true ->
  handleRestart body st
  = ({| Status := StatusBadRequest;
        Body := {| Success := false;
                   Message := "Invalid request format" |} |}, st).
Proof.
  unfold handleRestart. now destruct (ShouldBindJSON body).
Qed.

(** C9.  In pinned mode for the interface [X], a restart request that
    names another interface [Y] is answered with status 400, no success
    and the message [Only interface 'X' is monitored]; the state of the
    process and of the world is untouched, so no restart call is made. *)
Theorem C9_pinned_mode_rejects_other_interfaces (X Y : string)
    (st : @State W) :
  singleInterface (monitor st) = X ->
  X <> "" ->
  Y <> "" ->
  Y <> X ->
  handleRestart (Some Y) st
  = ({| Status := StatusBadRequest;
        Body := {| Success := false;
                   Message := "Only interface '" +:+ X
                              +:+ "' is monitored" |} |}, st)
  /\ restarts (added st (exec (handleRestart (Some Y)) st)) = [].
Proof.
  intros HX HXne HYne HYX.
  assert (Hh : handleRestart (Some Y) st
               = ({| Status := StatusBadRequest;
                     Body := {| Success := false;
                                Message := "Only interface '" +:+ X
                                           +:+ "' is monitored" |} |}, st)).
  { unfold handleRestart, ShouldBindJSON.
    destruct (String.eqb_spec Y ""); [contradiction|].
    unfold bind, getMonitor. cbn [ReqInterface]. rewrite HX.
    destruct (String.eqb_spec X ""); [contradiction|].
    destruct (String.eqb_spec Y X); [contradiction|]. reflexivity. }
  split; [exact Hh|].
  unfold exec, added. rewrite Hh. cbn [snd]. now rewrite drop_all.
Qed.

End ApiFacts.

(** ** Addresses, byte by byte *)

Section AddressBytes.

Lemma bytesEqual_eq (a b : list byte) : bytesEqual a b = true <-> a = b.
Proof.
  split; [|intros ->; apply bytesEqual_refl].
  revert b. induction a as [|x a IH]; intros [|y b]; simpl; try discriminate;
    [reflexivity|].
  intros [Hx Hab]%andb_true_iff. apply Byte.byte_dec_bl in Hx.
  f_equal; auto.
Qed.

Lemma bytesEqual_length (a b : list byte) :
  bytesEqual a b = true -> length a = length b.
Proof. now intros ->%bytesEqual_eq. Qed.

(** An address that [Equal] tells apart from [a] is not [a]. *)
Lemma Equal_false_ne (a b : IP) : Equal a b = false -> a <> b.
Proof. intros H ->. now rewrite Equal_refl in H. Qed.

(** The nil address is [Equal] to itself only. *)
Lemma Equal_nil (ip : IP) : Equal [] ip = match ip with [] => true | _ => false end.
Proof.
  destruct ip as [|x ip]; [reflexivity|]. unfold Equal. reflexivity.
Qed.

(** A 4-byte address and its 16-byte IPv4-mapped form are [Equal]. *)
Lemma Equal_mapped (a : IP) :
  length a = IPv4len -> Equal a (v4InV6Prefix ++ a) = true.
Proof.
  intros Ha. unfold Equal. rewrite length_app, Ha. simpl.
  now rewrite bytesEqual_refl.
Qed.

End AddressBytes.

(** ** What a pass asks and restarts *)

Section PassExtras.
Context {W : Type} `{!Host W}.
Implicit Types (st : @State W) (c : Config) (i : nat).

Lemma restartOf_changedUnit c (r : result IP) :
  restartOf (c, r) = changedUnit (c, settle c r).
Proof.
  unfold restartOf, changedUnit. cbn [fst snd].
  destruct r as [ip|e]; cbn [drifted settle]; [|now rewrite bytesEqual_refl].
  destruct (Equal (LastIP c) ip) eqn:He; cbn [negb].
  - now rewrite bytesEqual_refl.
  - cbn [setLastIP LastIP].
    destruct (bytesEqual (LastIP c) ip) eqn:Hb; [|reflexivity].
    apply bytesEqual_eq in Hb. now apply Equal_false_ne in He.
Qed.

Lemma omap_length_le {A B} (f : A -> option B) (l : list A) :
  length (omap f l) <= length l.
Proof.
  induction l as [|x l IH]; [reflexivity|].
  change (omap f (x :: l))
    with (match f x with Some y => y :: omap f l | None => omap f l end).
  destruct (f x); simpl; lia.
Qed.

(** X1.  A pass asks the resolver once per entry, in the order of the
    registry, for the hostname of the entry, and restarts at most once per
    entry. *)
Theorem pass_queries_each_entry_once st :
  let st1 := exec checkEndpoints st in
  trace st1 = trace st ++ added st st1
  /\ (queries (added st st1)).*1 = Hostname <$> configs (monitor st)
  /\ length (resolutions (added st st1)) = length (configs (monitor st))
  /\ length (restarts (added st st1)) <= length (configs (monitor st)).
Proof.
  intros st1.
  destruct (pass_spec st) as (rs & L & Q & R & S & _ & _).
  fold st1 in Q, R, S. split.
  { destruct (pass_from (length (configs (monitor st))) 0 st eq_refl)
      as (rs0 & evs & _ & T & _). cbv zeta in T.
    change (exec (forEach _ checkEndpoint) st) with st1 in T.
    unfold added. now rewrite T, drop_app_length. }
  rewrite Q, R, S. split; [apply fst_zip; rewrite length_fmap; lia|].
  split; [assumption|].
  etrans; [apply omap_length_le|]. rewrite length_zip_with. lia.
Qed.

(** X2.  The units restarted by a pass are those of the entries whose stored
    address the pass has changed, in the order of the registry. *)
Theorem pass_restarts_where_address_changed st :
  let st1 := exec checkEndpoints st in
  restarts (added st st1)
  = omap changedUnit (zip (configs (monitor st)) (configs (monitor st1))).
Proof.
  intros st1.
  destruct (pass_spec st) as (rs & _ & _ & _ & S & C & _).
  fold st1 in S, C. rewrite S, C. clear.
  revert rs. induction (configs (monitor st)) as [|c cs IH]; intros [|r rs];
    try reflexivity.
  cbn [zip_with]. change (omap ?f (?x :: ?l))
    with (match f x with Some y => y :: omap f l | None => omap f l end).
  now rewrite restartOf_changedUnit, IH.
Qed.

(** X3.  A pass in which every answer is an error or an address [Equal] to
    the stored one changes nothing in the monitor and restarts nothing. *)
Theorem pass_without_drift_is_quiet st :
  let st1 := exec checkEndpoints st in
  Forall2 (fun c r => drifted c r = false)
    (configs (monitor st)) (resolutions (added st st1)) ->
  monitor st1 = monitor st /\ restarts (added st st1) = [].
Proof.
  intros st1 Hq.
  destruct (pass_spec st) as (rs & _ & _ & R & S & C & M).
  fold st1 in R, S, C, M. rewrite R in Hq. rewrite S.
  assert (Hboth : zip_with settle (configs (monitor st)) rs
                  = configs (monitor st)
                  /\ omap restartOf (zip (configs (monitor st)) rs) = []).
  { clear -Hq. induction Hq as [|c r cs rs0 Hd _ [IH1 IH2]]; [now split|].
    cbn [zip_with]. rewrite IH1, (settle_same _ _ Hd). split; [reflexivity|].
    change (omap ?f (?x :: ?l))
      with (match f x with Some y => y :: omap f l | None => omap f l end).
    unfold restartOf at 1. cbn [fst snd]. now rewrite Hd. }
  destruct Hboth as [E1 E2]. split; [|assumption].
  rewrite E1 in C. rewrite <- M, <- C. symmetry. apply setConfigs_id.
Qed.

(** One iteration without drift: only the query is recorded. *)
Lemma checkEndpoint_no_drift i c (r : result IP) (w1 : W) st :
  configs (monitor st) !! i = Some c ->
  ResolveIPAddr "ip4" (Hostname c) (world st) = (r, w1) ->
  drifted c r = false ->
  exec (checkEndpoint i) st
  = {| monitor := monitor st;
       world := w1;
       trace := trace st ++ [EvResolve (Hostname c) r] |}.
Proof.
  intros Hc Hr Hd. rewrite (checkEndpoint_step _ _ _ Hc).
  unfold afterEndpoint. rewrite Hr. cbn [fst snd]. now rewrite Hd.
Qed.

(** X4.  The resolver answering with the 16-byte IPv4-mapped form of the
    4-byte address that the entry holds is not a change: nothing is
    restarted and the entry keeps the bytes it has. *)
Theorem mapped_form_of_same_address_is_no_drift i c (w1 : W) st :
  configs (monitor st) !! i = Some c ->
  length (LastIP c) = IPv4len ->
  ResolveIPAddr "ip4" (Hostname c) (world st)
  = (Ok (v4InV6Prefix ++ LastIP c), w1) ->
  let st1 := exec (checkEndpoint i) st in
  monitor st1 = monitor st
  /\ restarts (added st st1) = []
  /\ resolutions (added st st1) = [Ok (v4InV6Prefix ++ LastIP c)].
Proof.
  intros Hc Hl Hr st1. unfold st1.
  rewrite (checkEndpoint_no_drift _ _ _ _ _ Hc Hr)
    by (cbn [drifted]; now rewrite Equal_mapped).
  unfold added. cbn [monitor trace]. now rewrite drop_app_length.
Qed.

(** X5.  An entry whose address was never resolved gets its first address
    and a restart as soon as the resolver answers with an address. *)
Theorem first_answer_restarts_unresolved_entry i c (B : IP) (w1 : W) st :
  configs (monitor st) !! i = Some c ->
  LastIP c = [] ->
  B <> [] ->
  ResolveIPAddr "ip4" (Hostname c) (world st) = (Ok B, w1) ->
  let st1 := exec (checkEndpoint i) st in
  configs (monitor st1)
  = <[i := {| Interface := Interface c;
              Endpoint := Endpoint c;
              Hostname := Hostname c;
              LastIP := B |}]> (configs (monitor st))
  /\ restarts (added st st1) = [serviceName (Interface c)].
Proof.
  intros Hc Hnil HB Hr st1. unfold st1.
  rewrite (checkEndpoint_step _ _ _ Hc). unfold afterEndpoint.
  rewrite Hr. cbn [fst snd drifted settle]. rewrite Hnil, Equal_nil.
  destruct B as [|b B]; [contradiction|]. cbn [negb].
  unfold added. cbn [monitor configs setConfigs trace].
  now rewrite drop_app_length.
Qed.

End PassExtras.

(** ** The restart call and the control surface *)

Section ControlSurfaceFacts.
Context {W : Type} `{!Host W}.
Implicit Types (st : @State W) (Y : string).

Lemma found_elem_of (cs : list Config) Y :
  found cs Y = true <-> Y ∈ Interface <$> cs.
Proof.
  unfold found. induction cs as [|c cs IH]; simpl.
  - split; [discriminate | intros H; inversion H].
  - rewrite orb_true_iff, IH, elem_of_cons.
    destruct (String.eqb_spec (Interface c) Y); split; intros [?|?]; auto;
      try discriminate; congruence.
Qed.

(** The call of [restartWireGuardService] and what it returns. *)
Lemma restartWireGuardService_run (name : string) st :
  restartWireGuardService name st
  = (match fst (RestartUnitContext (serviceName name) "replace" (world st)) with
     | Err e =>
         Some ("failed to restart service " +:+ serviceName name
               +:+ ": " +:+ e)
     | Ok job =>
         if String.eqb job "done" then None
         else Some ("service restart job failed: " +:+ job)
     end,
     {| monitor := monitor st;
        world := snd (RestartUnitContext (serviceName name) "replace"
                        (world st));
        trace := trace st
                 ++ [EvRestart (serviceName name)
                       (fst (RestartUnitContext (serviceName name) "replace"
                               (world st)))
                       (configs (monitor st))] |}).
Proof.
  unfold restartWireGuardService, bind, restartUnitContext.
  destruct (RestartUnitContext (serviceName name) "replace" (world st))
    as [[job|e] w]; cbn [fst snd]; [|reflexivity].
  now destruct (String.eqb job "done").
Qed.

(** X6.  [restartWireGuardService] makes one call to the service manager,
    for the unit of the interface and with the mode [replace], and succeeds
    exactly when the call is accepted and the job ends as [done]; any other
    job result is reported with its text. *)
Theorem restartWireGuardService_one_call (name : string) st :
  let answer := RestartUnitContext (serviceName name) "replace" (world st) in
  let err := fst (restartWireGuardService name st) in
  snd (restartWireGuardService name st)
  = {| monitor := monitor st;
       world := snd answer;
       trace := trace st
                ++ [EvRestart (serviceName name) (fst answer)
                      (configs (monitor st))] |}
  /\ (err = None <-> fst answer = Ok "done")
  /\ (forall job, fst answer = Ok job -> job <> "done" ->
        err = Some ("service restart job failed: " +:+ job))
  /\ (forall e, fst answer = Err e ->
        err = Some ("failed to restart service " +:+ serviceName name
                    +:+ ": " +:+ e)).
Proof.
  intros answer err. unfold err. rewrite restartWireGuardService_run.
  fold answer. cbn [fst snd]. split; [reflexivity|].
  destruct (fst answer) as [job|e].
  - destruct (String.eqb_spec job "done") as [->|Hj].
    + repeat split; try reflexivity; try congruence.
    + repeat split; try discriminate; try congruence.
  - repeat split; try discriminate; try congruence.
Qed.

(** X7.  A restart request for an interface that has no entry in the
    registry (and is not refused by the pinned mode) is answered 404,
    without any call. *)
Theorem handleRestart_unknown_interface Y st :
  Y <> "" ->
  singleInterface (monitor st) = "" \/ singleInterface (monitor st) = Y ->
  Y ∉ Interface <$> configs (monitor st) ->
  handleRestart (Some Y) st
  = ({| Status := StatusNotFound;
        Body := {| Success := false;
                   Message := "Interface '" +:+ Y
                              +:+ "' not found in monitored interfaces" |} |},
     st).
Proof.
  intros HY Hpin Hnot. unfold handleRestart, ShouldBindJSON.
  destruct (String.eqb_spec Y ""); [contradiction|].
  unfold bind, getMonitor. cbn [ReqInterface].
  assert (Hp : negb (String.eqb (singleInterface (monitor st)) "")
               && negb (String.eqb Y (singleInterface (monitor st))) = false).
  { destruct Hpin as [-> | ->]; [reflexivity|].
    now rewrite String.eqb_refl, andb_false_r. }
  rewrite Hp.
  destruct (found (configs (monitor st)) Y) eqn:Hf; [|reflexivity].
  now apply found_elem_of in Hf.
Qed.

Lemma handleRestart_registered_run Y st :
  Y <> "" ->
  singleInterface (monitor st) = "" \/ singleInterface (monitor st) = Y ->
  Y ∈ Interface <$> configs (monitor st) ->
  handleRestart (Some Y) st
  = (match fst (restartWireGuardService Y st) with
     | None =>
         {| Status := StatusOK;
            Body := {| Success := true;
                       Message := "Interface '" +:+ Y
                                  +:+ "' restarted successfully" |} |}
     | Some e =>
         {| Status := StatusInternalServerError;
            Body := {| Success := false;
                       Message := "Failed to restart interface: " +:+ e |} |}
     end,
     snd (restartWireGuardService Y st)).
Proof.
  intros HY Hpin Hin. unfold handleRestart, ShouldBindJSON.
  destruct (String.eqb_spec Y ""); [contradiction|].
  unfold bind at 1, getMonitor. cbn [ReqInterface].
  assert (Hp : negb (String.eqb (singleInterface (monitor st)) "")
               && negb (String.eqb Y (singleInterface (monitor st))) = false).
  { destruct Hpin as [-> | ->]; [reflexivity|].
    now rewrite String.eqb_refl, andb_false_r. }
  rewrite Hp. apply found_elem_of in Hin. rewrite Hin. cbn [negb].
  unfold bind.
  destruct (restartWireGuardService Y st) as [[e|] st1]; reflexivity.
Qed.

(** X8.  A restart request for a registered interface (that the pinned mode
    does not refuse) makes the one call of [restartWireGuardService] and
    nothing else; the answer is 200 when that succeeds and 500 with the
    error otherwise. *)
Theorem handleRestart_registered_interface Y st :
  Y <> "" ->
  singleInterface (monitor st) = "" \/ singleInterface (monitor st) = Y ->
  Y ∈ Interface <$> configs (monitor st) ->
  let err := fst (restartWireGuardService Y st) in
  handleRestart (Some Y) st
  = (match err with
     | None =>
         {| Status := StatusOK;
            Body := {| Success := true;
                       Message := "Interface '" +:+ Y
                                  +:+ "' restarted successfully" |} |}
     | Some e =>
         {| Status := StatusInternalServerError;
            Body := {| Success := false;
                       Message := "Failed to restart interface: " +:+ e |} |}
     end,
     snd (restartWireGuardService Y st))
  /\ restarts (added st (exec (handleRestart (Some Y)) st)) = [serviceName Y].
Proof.
  intros HY Hpin Hin err.
  pose proof (handleRestart_registered_run Y st HY Hpin Hin) as Hh.
  split; [exact Hh|].
  unfold exec. rewrite Hh. cbn [snd].
  rewrite restartWireGuardService_run. unfold added. cbn [snd trace].
  now rewrite drop_app_length.
Qed.

(** [handleRestart] either leaves the state as it is or is the restart of
    a registered interface. *)
Lemma handleRestart_cases (body : option string) st :
  snd (handleRestart body st) = st
  \/ exists Y,
       body = Some Y /\ Y <> ""
       /\ (singleInterface (monitor st) = ""
           \/ singleInterface (monitor st) = Y)
       /\ Y ∈ Interface <$> configs (monitor st)
       /\ snd (handleRestart body st) = snd (restartWireGuardService Y st).
Proof.
  destruct body as [Y|]; [|now left].
  destruct (String.eqb_spec Y "") as [->|HY]; [now left|].
  destruct (found (configs (monitor st)) Y) eqn:Hf.
  - apply found_elem_of in Hf.
    destruct (String.eqb_spec (singleInterface (monitor st)) "") as [Hs|Hs].
    + right. exists Y.
      rewrite (handleRestart_registered_run Y st HY (or_introl Hs) Hf).
      repeat split; auto.
    + destruct (String.eqb_spec Y (singleInterface (monitor st))) as [HYs|HYs].
      * right. exists Y.
        rewrite (handleRestart_registered_run Y st HY
                   (or_intror (eq_sym HYs)) Hf).
        repeat split; auto.
      * left. unfold handleRestart, ShouldBindJSON.
        destruct (String.eqb_spec Y ""); [contradiction|].
        unfold bind, getMonitor. cbn [ReqInterface].
        destruct (String.eqb_spec (singleInterface (monitor st)) "");
          [contradiction|].
        now destruct (String.eqb_spec Y (singleInterface (monitor st))).
  - left. unfold handleRestart, ShouldBindJSON.
    destruct (String.eqb_spec Y ""); [contradiction|].
    unfold bind, getMonitor. cbn [ReqInterface]. rewrite Hf.
    now destruct (negb _ && negb _).
Qed.

Section WithIPString.
Variable IPString : IP -> string.

Lemma serveV1_run (header : option string) (req : Request) st :
  serveV1 IPString header req st
  = if String.eqb (match header with Some v => v | None => "" end)
         (apiKey (monitor st))
    then match req with
         | PostRestart body =>
             (RestartReply (fst (handleRestart body st)),
              snd (handleRestart body st))
         | GetInterfaces => handleListInterfaces IPString st
         end
    else (ErrorReply StatusUnauthorized "Invalid API key", st).
Proof.
  unfold serveV1, authMiddleware. unfold bind at 1, getMonitor.
  destruct (String.eqb _ (apiKey (monitor st))); [|reflexivity].
  destruct req as [body|]; [|reflexivity]. cbn [negb]. unfold bind, ret.
  now destruct (handleRestart body st).
Qed.

(** X9.  The group [/api/v1] refuses a request whose key is not the
    configured one with 401 and does nothing; and whenever a request makes
    it call the service manager, the key was right, the request was a
    restart request naming a registered interface (the pinned one in pinned
    mode), and the call is the one restart of the unit of that interface. *)
Theorem api_restarts_only_registered_interfaces_with_the_key
    (header : option string) (req : Request) st :
  let key := match header with Some v => v | None => "" end in
  let st1 := exec (serveV1 IPString header req) st in
  (key <> apiKey (monitor st) ->
   serveV1 IPString header req st
   = (ErrorReply StatusUnauthorized "Invalid API key", st))
  /\ (restarts (added st st1) <> [] ->
      key = apiKey (monitor st)
      /\ exists Y,
           req = PostRestart (Some Y) /\ Y <> ""
           /\ (singleInterface (monitor st) = ""
               \/ singleInterface (monitor st) = Y)
           /\ Y ∈ Interface <$> configs (monitor st)
           /\ restarts (added st st1) = [serviceName Y]).
Proof.
  intros key st1. unfold st1, exec. rewrite serveV1_run. fold key.
  assert (Hnone : restarts (added st st) = [])
    by (unfold added; now rewrite drop_all).
  destruct (String.eqb_spec key (apiKey (monitor st))) as [Hk|Hk].
  - split; [intros Hne; contradiction|].
    destruct req as [body|]; cbn [snd].
    + destruct (handleRestart_cases body st)
        as [Hs|(Y & -> & HY & Hp & Hin & Hs)]; rewrite Hs.
      * intros Hne. contradiction.
      * intros _. split; [assumption|]. exists Y. repeat split; auto.
        rewrite restartWireGuardService_run. unfold added. cbn [snd trace].
        now rewrite drop_app_length.
    + unfold handleListInterfaces, bind, getMonitor, ret. cbn [snd].
      intros Hne. contradiction.
  - split; [reflexivity|]. cbn [snd]. intros Hne. contradiction.
Qed.

(** X10.  The listing leaves the state as it is and shows the registry as it
    stands, entry by entry and in order; an interface is listed exactly when
    a restart request for it would not be answered 404 as unknown. *)
Theorem handleListInterfaces_shows_the_registry st :
  exists body,
    handleListInterfaces IPString st = (InterfacesReply StatusOK body, st)
    /\ total_count body = length (configs (monitor st))
    /\ length (interfaces body) = total_count body
    /\ info_interface <$> interfaces body = Interface <$> configs (monitor st)
    /\ info_endpoint <$> interfaces body = Endpoint <$> configs (monitor st)
    /\ info_hostname <$> interfaces body = Hostname <$> configs (monitor st)
    /\ info_last_ip <$> interfaces body
       = (fun c => IPString (LastIP c)) <$> configs (monitor st)
    /\ (single_interface_mode body = true
        <-> singleInterface (monitor st) <> "")
    /\ monitored_interface body = singleInterface (monitor st)
    /\ (forall Y, Y ∈ info_interface <$> interfaces body
                  <-> found (configs (monitor st)) Y = true).
Proof.
  eexists. split; [reflexivity|]. cbn [total_count interfaces
    single_interface_mode monitored_interface].
  rewrite length_map. repeat split; try reflexivity.
  - now rewrite <- list_fmap_compose.
  - now rewrite <- list_fmap_compose.
  - now rewrite <- list_fmap_compose.
  - now rewrite <- list_fmap_compose.
  - destruct (String.eqb_spec (singleInterface (monitor st)) "");
      [discriminate | auto].
  - destruct (String.eqb_spec (singleInterface (monitor st)) "");
      [contradiction | auto].
  - rewrite found_elem_of. now rewrite <- list_fmap_compose.
  - rewrite found_elem_of. now rewrite <- list_fmap_compose.
Qed.

End WithIPString.

End ControlSurfaceFacts.

(** ** Discovery *)

Section DiscoveryFacts.
Context {W : Type} `{!Host W}.
Implicit Types (st : @State W) (P : string -> Prop).

Lemma grows_inWorld P (w : W) st : grows P st (inWorld w st).
Proof.
  exists []. cbn. rewrite app_nil_r. repeat split; auto. apply setConfigs_id.
Qed.

Lemma grows_trans P st st1 st2 :
  grows P st st1 -> grows P st1 st2 -> grows P st st2.
Proof.
  intros (e1 & C1 & F1 & R1 & M1) (e2 & C2 & F2 & R2 & M2).
  exists (e1 ++ e2). rewrite C2, C1, <- app_assoc.
  repeat split; [now apply Forall_app | congruence |].
  rewrite <- M1, <- M2. reflexivity.
Qed.

Lemma grows_weaken P (Q : string -> Prop) st st1 :
  (forall name, P name -> Q name) -> grows P st st1 -> grows Q st st1.
Proof.
  intros HPQ (e & C & F & R & M). exists e. repeat split; try assumption.
  eapply Forall_impl; [exact F|]. intros c [HP HO]. auto.
Qed.

Lemma parseLine_grows P (interfaceName text : string) st :
  P interfaceName -> grows P st (exec (parseLine interfaceName text) st).
Proof.
  intros HP. unfold exec.
  destruct (lineEndpoint text) as [[endpoint host]|] eqn:Hl.
  - rewrite (parseLine_register _ _ _ _ _ Hl). cbn [snd].
    eexists [_]. cbn [monitor configs setConfigs trace].
    split; [reflexivity|]. split; [|split].
    + constructor; [|constructor]. split; [exact HP|].
      apply lineEndpoint_Some in Hl as (value & _ & -> & [port Hs] & Hq).
      split; [exact Hq | now exists port].
    + unfold restarts. rewrite omap_app. cbn. now rewrite app_nil_r.
    + rewrite setConfigs_twice. apply setConfigs_id.
  - rewrite (parseLine_skip _ _ _ Hl). cbn [snd].
    exists []. rewrite app_nil_r. repeat split; auto. apply setConfigs_id.
Qed.

Lemma forEach_grows {A} P (xs : list A) (body : A -> M unit) st :
  (forall x st0, x ∈ xs -> grows P st0 (exec (body x) st0)) ->
  grows P st (exec (forEach xs body) st).
Proof.
  revert st. induction xs as [|x xs IH]; intros st Hb.
  - exists []. cbn. rewrite app_nil_r. repeat split; auto.
    apply setConfigs_id.
  - rewrite exec_forEach_cons. eapply grows_trans.
    + apply Hb. left.
    + apply IH. intros y st0 Hy. apply Hb. now right.
Qed.

(** [parseWireGuardConfig], by what the file system answers. *)
Lemma exec_parseWireGuardConfig (interfaceName configPath : string) st :
  exec (parseWireGuardConfig interfaceName configPath) st
  = match fst (ReadFile configPath (world st)) with
    | Err _ => inWorld (snd (ReadFile configPath (world st))) st
    | Ok data =>
        exec (forEach (fst (scanLines data)) (parseLine interfaceName))
          (inWorld (snd (ReadFile configPath (world st))) st)
    end.
Proof.
  unfold exec at 1, parseWireGuardConfig, bind at 1, readFile.
  destruct (ReadFile configPath (world st)) as [[data|e] w]; cbn [fst snd];
    [|reflexivity].
  apply exec_scanConfig.
Qed.

Lemma parseWireGuardConfig_grows P (interfaceName configPath : string) st :
  P interfaceName ->
  grows P st (exec (parseWireGuardConfig interfaceName configPath) st).
Proof.
  intros HP. rewrite exec_parseWireGuardConfig.
  destruct (fst (ReadFile configPath (world st))) as [data|e];
    [|apply grows_inWorld].
  eapply grows_trans; [apply grows_inWorld|].
  apply forEach_grows. intros text st0 _. now apply parseLine_grows.
Qed.

Lemma discoverWireGuardConfigs_run st :
  discoverWireGuardConfigs st
  = match fst (ListUnitsContext (world st)) with
    | Err e =>
        (Some ("failed to list systemd units: " +:+ e),
         inWorld (snd (ListUnitsContext (world st))) st)
    | Ok units =>
        (None,
         exec (forEach units discoverUnit)
           (inWorld (snd (ListUnitsContext (world st))) st))
    end.
Proof.
  unfold discoverWireGuardConfigs, bind at 1, listUnitsContext.
  destruct (ListUnitsContext (world st)) as [[units|e] w]; cbn [fst snd];
    [|reflexivity].
  unfold bind, ret.
  change (forEach units _) with (forEach units (discoverUnit (W := W))).
  rewrite forEach_unit. reflexivity.
Qed.

Lemma discoverUnit_skip (unit : UnitStatus) st :
  accepted unit = false -> exec (discoverUnit unit) st = st.
Proof. intros Ha. unfold exec, discoverUnit. now rewrite Ha. Qed.

Lemma discoverUnit_accepted (unit : UnitStatus) st :
  accepted unit = true ->
  exec (discoverUnit unit) st
  = exec (parseWireGuardConfig (interfaceNameOf (Name unit))
            (filepath_Join "/etc/wireguard"
               (interfaceNameOf (Name unit) +:+ ".conf"))) st.
Proof.
  intros Ha. unfold exec, discoverUnit. rewrite Ha. unfold bind, ret.
  now destruct (parseWireGuardConfig _ _ st).
Qed.

(** X11.  Discovery fails exactly when the units cannot be listed, with the
    error of the service manager in its message and the registry as it was:
    no error met while reading a configuration makes it fail. *)
Theorem discovery_fails_only_when_listing_fails st :
  let listing := ListUnitsContext (world st) in
  (forall units, fst listing = Ok units ->
     fst (discoverWireGuardConfigs st) = None)
  /\ (forall e, fst listing = Err e ->
        discoverWireGuardConfigs st
        = (Some ("failed to list systemd units: " +:+ e),
           inWorld (snd listing) st)).
Proof.
  intros listing. unfold listing. rewrite discoverWireGuardConfigs_run.
  split.
  - intros units ->. reflexivity.
  - intros e ->. reflexivity.
Qed.

Lemma forEach_discoverUnit_filter (units : list UnitStatus) st :
  exec (forEach units discoverUnit) st
  = exec (forEach (List.filter accepted units) discoverUnit) st.
Proof.
  revert st. induction units as [|unit units IH]; intros st; [reflexivity|].
  cbn [List.filter]. destruct (accepted unit) eqn:Ha.
  - now rewrite !exec_forEach_cons, IH.
  - now rewrite exec_forEach_cons, (discoverUnit_skip _ _ Ha), IH.
Qed.

(** X12.  Discovery only looks at the units named [wg-quick@....service]
    that are [active]: it ends in the state it would reach if the service
    manager had listed those units alone. *)
Theorem discovery_looks_at_active_tunnel_units_only
    (units : list UnitStatus) st :
  fst (ListUnitsContext (world st)) = Ok units ->
  exec discoverWireGuardConfigs st
  = exec (forEach (List.filter accepted units) discoverUnit)
      (inWorld (snd (ListUnitsContext (world st))) st)
  /\ Forall (fun unit =>
               HasPrefix (Name unit) "wg-quick@" = true
               /\ HasSuffix (Name unit) ".service" = true
               /\ ActiveState unit = "active")
       (List.filter accepted units).
Proof.
  intros Hl. split.
  - unfold exec at 1. rewrite discoverWireGuardConfigs_run, Hl. cbn [snd].
    apply forEach_discoverUnit_filter.
  - apply List.Forall_forall. intros unit [_ Ha]%List.filter_In.
    unfold accepted, isTunnelUnit in Ha.
    apply andb_true_iff in Ha as [[Hp Hs]%andb_true_iff He].
    now apply String.eqb_eq in He.
Qed.

(** X13.  A unit whose configuration cannot be opened registers nothing, and
    discovery goes on with the units that follow. *)
Theorem unreadable_config_does_not_stop_discovery
    (unit : UnitStatus) (rest : list UnitStatus) (e : string) st :
  accepted unit = true ->
  let configPath :=
    filepath_Join "/etc/wireguard" (interfaceNameOf (Name unit) +:+ ".conf") in
  fst (ReadFile configPath (world st)) = Err e ->
  exec (discoverUnit unit) st
  = inWorld (snd (ReadFile configPath (world st))) st
  /\ exec (forEach (unit :: rest) discoverUnit) st
     = exec (forEach rest discoverUnit)
         (inWorld (snd (ReadFile configPath (world st))) st).
Proof.
  intros Ha configPath He.
  assert (Hu : exec (discoverUnit unit) st
               = inWorld (snd (ReadFile configPath (world st))) st).
  { rewrite (discoverUnit_accepted _ _ Ha), exec_parseWireGuardConfig.
    fold configPath. now rewrite He. }
  split; [exact Hu|]. now rewrite exec_forEach_cons, Hu.
Qed.

Lemma discoverUnit_grows (units : list UnitStatus) (unit : UnitStatus) st :
  unit ∈ units ->
  grows (ofActiveUnit units) st (exec (discoverUnit unit) st).
Proof.
  intros Hin. destruct (accepted unit) eqn:Ha.
  - rewrite (discoverUnit_accepted _ _ Ha).
    apply parseWireGuardConfig_grows. exists unit.
    unfold accepted in Ha. apply andb_true_iff in Ha as [Ht He].
    apply String.eqb_eq in He.
    repeat split; auto. symmetry. now apply serviceName_interfaceNameOf.
  - rewrite (discoverUnit_skip _ _ Ha). exists []. rewrite app_nil_r.
    repeat split; auto. apply setConfigs_id.
Qed.

Lemma discoverWireGuardConfigs_grows st :
  grows (fun name =>
           exists units, fst (ListUnitsContext (world st)) = Ok units
                         /\ ofActiveUnit units name)
    st (exec discoverWireGuardConfigs st).
Proof.
  unfold exec. rewrite discoverWireGuardConfigs_run.
  destruct (fst (ListUnitsContext (world st))) as [units|e] eqn:Hl;
    cbn [snd]; [|apply grows_inWorld].
  eapply grows_trans; [apply grows_inWorld|].
  apply grows_weaken with (P := ofActiveUnit units); [eauto|].
  apply forEach_grows. intros unit st0 Hin. now apply discoverUnit_grows.
Qed.

(** X14.  Every entry that discovery registers is under the interface name
    of a unit that the service manager listed as active, such that the unit
    restarted for the entry is that very unit; nothing is restarted during
    discovery and entries already registered stay. *)
Theorem discovered_entries_belong_to_active_units
    (units : list UnitStatus) st :
  fst (ListUnitsContext (world st)) = Ok units ->
  exists entries,
    configs (monitor (exec discoverWireGuardConfigs st))
    = configs (monitor st) ++ entries
    /\ Forall (fun c =>
                 exists unit,
                   unit ∈ units /\ ActiveState unit = "active"
                   /\ Name unit = serviceName (Interface c)) entries
    /\ restarts (trace (exec discoverWireGuardConfigs st))
       = restarts (trace st).
Proof.
  intros Hl.
  destruct (discoverWireGuardConfigs_grows st) as (es & C & F & R & _).
  exists es. repeat split; try assumption.
  eapply Forall_impl; [exact F|].
  intros c [(units0 & Hl0 & Hu) _]. rewrite Hl in Hl0.
  injection Hl0 as <-. exact Hu.
Qed.

End DiscoveryFacts.

(** ** What holds of every state of the process *)

Section Invariants.
Context {W : Type} `{!Host W}.
Implicit Types (st : @State W).

Lemma parseSingleInterface_exec st :
  exec parseSingleInterface st
  = exec (parseWireGuardConfig (singleInterface (monitor st))
            (filepath_Join "/etc/wireguard"
               (singleInterface (monitor st) +:+ ".conf"))) st.
Proof.
  unfold exec, parseSingleInterface, bind at 1, getMonitor. unfold bind, ret.
  destruct (parseWireGuardConfig _ _ st) as [[e|] st1]; reflexivity.
Qed.

Lemma initialize_exec st :
  exec initialize st
  = if String.eqb (singleInterface (monitor st)) "" then
      exec discoverWireGuardConfigs st
    else exec parseSingleInterface st.
Proof.
  unfold exec, initialize, bind, getMonitor.
  now destruct (String.eqb (singleInterface (monitor st)) "").
Qed.

Lemma initialize_grows st :
  grows (fun name => singleInterface (monitor st) <> "" ->
                     name = singleInterface (monitor st))
    st (exec initialize st).
Proof.
  rewrite initialize_exec.
  destruct (String.eqb_spec (singleInterface (monitor st)) "") as [Hs|Hs].
  - eapply grows_weaken; [|apply discoverWireGuardConfigs_grows].
    intros name _ Hne. contradiction.
  - rewrite parseSingleInterface_exec. now apply parseWireGuardConfig_grows.
Qed.

Lemma settle_hostOfEndpoint (c : Config) (r : result IP) :
  hostOfEndpoint c -> hostOfEndpoint (settle c r).
Proof.
  destruct r as [ip|e]; simpl; [|auto]. now destruct (Equal _ _).
Qed.

Lemma reachable_sound st : reachable st -> sound st.
Proof.
  induction 1 as [st Hc Ht | st Hr (IH1 & IH2 & IH3)
                 | st body Hr (IH1 & IH2 & IH3)].
  - destruct (initialize_grows st) as (es & C & F & R & M).
    rewrite Hc in C, M. rewrite Ht in R. cbn in C, R.
    assert (Hs : singleInterface (monitor (exec initialize st))
                 = singleInterface (monitor st)) by now rewrite <- M.
    unfold sound. rewrite C, R, Hs. split; [|split].
    + eapply Forall_impl; [exact F|]. now intros c [_ Hh].
    + constructor.
    + intros Hne. eapply Forall_impl; [exact F|]. intros c [Hp _]. auto.
  - destruct (pass_spec st) as (rs & L & _ & _ & _ & C & M).
    set (st1 := exec checkEndpoints st) in *.
    assert (Hi : Interface <$> configs (monitor st1)
                 = Interface <$> configs (monitor st))
      by apply forEach_checkEndpoint_interfaces.
    assert (Hs : singleInterface (monitor st1) = singleInterface (monitor st))
      by now rewrite <- M.
    unfold sound. rewrite Hi, Hs. split; [|split].
    + rewrite C. clear -IH1. revert rs.
      induction IH1 as [|c cs Hc _ IH]; intros [|r rs]; cbn [zip_with];
        constructor; auto using settle_hostOfEndpoint.
    + destruct (forEach_checkEndpoint_events
                  (seq 0 (length (configs (monitor st)))) st)
        as (evs & T & F).
      change (exec (forEach _ checkEndpoint) st) with st1 in T.
      rewrite T. unfold restarts at 1. rewrite omap_app.
      apply Forall_app. split; [exact IH2|].
      eapply Forall_impl; [exact F|].
      intros u (j & name & _ & Hn & ->).
      apply list_elem_of_fmap_2, list_elem_of_lookup. eauto.
    + intros Hne. specialize (IH3 Hne).
      assert (Hn : Forall (fun n => n = singleInterface (monitor st))
                     (Interface <$> configs (monitor st)))
        by (apply Forall_fmap; exact IH3).
      rewrite <- Hi in Hn. apply Forall_fmap in Hn. exact Hn.
  - assert (Hc := handleRestart_configs body st).
    destruct (handleRestart_cases body st)
      as [Hsame|(Y & -> & HY & Hp & Hin & Hrun)].
    + unfold exec. rewrite Hsame. now split.
    + unfold exec in *. rewrite Hrun in *.
      rewrite restartWireGuardService_run in *. cbn [snd] in *.
      unfold sound. cbn [monitor trace]. split; [exact IH1|].
      split; [|exact IH3].
      unfold restarts at 1. rewrite omap_app. apply Forall_app.
      split; [exact IH2|]. constructor; [|constructor].
      now apply list_elem_of_fmap_2.
Qed.

(** X15.  Whatever the process has done since it started, every unit it has
    asked the service manager to restart is the unit of an interface that
    has an entry in the registry. *)
Theorem only_units_of_registered_interfaces_are_restarted st :
  reachable st ->
  Forall (fun u => exists c, c ∈ configs (monitor st)
                             /\ u = serviceName (Interface c))
    (restarts (trace st)).
Proof.
  intros (_ & H2 & _)%reachable_sound.
  eapply Forall_impl; [exact H2|]. intros u Hu.
  apply list_elem_of_fmap in Hu as (name & -> & Hn).
  apply list_elem_of_fmap in Hn as (c & -> & Hc). eauto.
Qed.

(** X16.  In pinned mode every entry of the registry is under the pinned
    interface, and the only unit ever restarted, by a pass or on request, is
    the unit of the pinned interface. *)
Theorem pinned_mode_restarts_only_the_pinned_unit st :
  reachable st ->
  singleInterface (monitor st) <> "" ->
  Forall (fun c => Interface c = singleInterface (monitor st))
    (configs (monitor st))
  /\ Forall (fun u => u = serviceName (singleInterface (monitor st)))
       (restarts (trace st)).
Proof.
  intros (_ & H2 & H3)%reachable_sound Hne. specialize (H3 Hne).
  split; [exact H3|].
  eapply Forall_impl; [exact H2|]. intros u Hu.
  apply list_elem_of_fmap in Hu as (name & -> & Hn).
  apply list_elem_of_fmap in Hn as (c & -> & Hc).
  rewrite Forall_forall in H3. now rewrite (H3 c Hc).
Qed.

(** X17.  Every entry of the registry has for hostname the host portion of
    its endpoint, as [net.SplitHostPort] gives it, and that hostname does
    not begin with four dot-separated groups of digits. *)
Theorem registered_hostname_is_host_of_endpoint st (c : Config) :
  reachable st ->
  c ∈ configs (monitor st) ->
  (exists port, SplitHostPort (Endpoint c) = Ok (Hostname c, port))
  /\ MatchString ipRegex (Hostname c) = false.
Proof.
  intros (H1 & _)%reachable_sound Hc.
  rewrite Forall_forall in H1. destruct (H1 c Hc) as [Hq Hs].
  split; [exact Hs|].
  destruct (MatchString ipRegex (Hostname c)) eqn:Hm; [|reflexivity].
  now apply ipRegex_sound in Hm.
Qed.


End Invariants.

(** ** Trimming *)

Section TrimFacts.

Lemma graphic_not_space (g : ascii) :
  graphic g = true ->
  asciiSpace g = false /\ space g = false /\ anyChar g = true
  /\ (forall d, isSpace2 g d = false)
  /\ (forall d e, isSpace3 g d e = false)
  /\ (forall c, isSpace2 c g = false)
  /\ (forall c d, isSpace3 c g d = false)
  /\ (forall c d, isSpace3 c d g = false).
Proof.
  unfold graphic, asciiSpace, space, anyChar, isSpace2, isSpace3.
  generalize (N_of_ascii g). intros n [H1 H2]%andb_true_iff.
  apply N.leb_le in H1, H2.
  assert (Hne : forall k, (k < 33 \/ 126 < k)%N -> (n =? k)%N = false)
    by (intros k Hk; apply N.eqb_neq; lia).
  assert (Hlo : (n <=? 13)%N = false) by (apply N.leb_gt; lia).
  assert (Hhi : (128 <=? n)%N = false) by (apply N.leb_gt; lia).
  repeat split; intros; cbv zeta; rewrite ?Hlo, ?Hhi;
    repeat match goal with
           | |- context [(n =? ?k)%N] => rewrite (Hne k) by lia
           end;
    repeat (rewrite ?andb_false_r; cbn [andb orb negb]);
    reflexivity.
Qed.

Lemma space_asciiSpace (c : ascii) : space c = true -> asciiSpace c = true.
Proof.
  unfold space, asciiSpace. generalize (N_of_ascii c). intros n H.
  repeat match goal with
    | H : context [(?a =? ?b)%N] |- _ => destruct (N.eqb_spec a b)
    end; subst; try reflexivity; discriminate.
Qed.

(** What is left of a string trimmed on the left does not begin with an
    ASCII white-space byte. *)
Lemma trimLeft_head (s : string) (c : ascii) (r : string) :
  trimLeft s = String c r -> asciiSpace c = false.
Proof.
  remember (String.length s) as n eqn:Hn. revert s Hn.
  induction n as [n IH] using lt_wf_ind. intros s Hn Ht.
  destruct s as [|a s1]; [discriminate|]. simpl in Ht, Hn.
  destruct (asciiSpace a) eqn:Ha.
  { eapply (IH (String.length s1)); [lia | reflexivity | exact Ht]. }
  destruct s1 as [|d s2]; [now injection Ht as <- _|]. simpl in Hn.
  destruct (isSpace2 a d).
  { eapply (IH (String.length s2)); [lia | reflexivity | exact Ht]. }
  destruct s2 as [|e s3]; [now injection Ht as <- _|]. simpl in Hn.
  destruct (isSpace3 a d e); [|now injection Ht as <- _].
  eapply (IH (String.length s3)); [lia | reflexivity | exact Ht].
Qed.

Lemma trimRight_head (s : string) (c : ascii) (r : string) :
  trimRight s = String c r -> exists r0, s = String c r0.
Proof.
  destruct s as [|a s1]; [discriminate|]. simpl.
  destruct (String.eqb _ ""); [discriminate|]. intros [= -> _]. eauto.
Qed.

Lemma TrimSpace_head (s : string) (c : ascii) (r : string) :
  TrimSpace s = String c r -> asciiSpace c = false.
Proof.
  unfold TrimSpace. intros [r0 H]%trimRight_head. now apply trimLeft_head in H.
Qed.

Lemma trimLeft_pad (pad s : string) :
  allChars asciiSpace pad = true -> trimLeft (pad +:+ s) = trimLeft s.
Proof.
  induction pad as [|c pad IH]; [reflexivity|].
  cbn [allChars]. intros [Hc Hp]%andb_true_iff. rewrite string_app_cons.
  cbn [trimLeft]. rewrite Hc. auto.
Qed.

Lemma trimLeft_graphic (g : ascii) (s : string) :
  graphic g = true -> trimLeft (String g s) = String g s.
Proof.
  intros (Ha & _ & _ & H2 & H3 & _)%graphic_not_space. simpl. rewrite Ha.
  destruct s as [|d s2]; [reflexivity|]. rewrite H2.
  destruct s2 as [|e s3]; [reflexivity|]. now rewrite H3.
Qed.

Lemma trimLeft_blank (pad : string) :
  allChars asciiSpace pad = true -> trimLeft pad = "".
Proof.
  intros H. rewrite <- (string_app_nil_r pad). now rewrite trimLeft_pad.
Qed.

(** A string in which a graphic character occurs is not all white
    space. *)
Lemma trimLeft_not_blank (a b : string) (g : ascii) :
  graphic g = true -> trimLeft (a +:+ String g b) <> "".
Proof.
  intros Hg.
  destruct (graphic_not_space g Hg) as (Hs & _ & _ & _ & _ & G2 & G31 & G32).
  remember (String.length a) as n eqn:Hn. revert a Hn.
  induction n as [n IH] using lt_wf_ind. intros a Hn.
  destruct a as [|c a1].
  { rewrite string_app_nil_l, trimLeft_graphic by assumption. discriminate. }
  rewrite string_app_cons. simpl in Hn. simpl.
  destruct (asciiSpace c); [apply (IH (String.length a1)); [lia | reflexivity]|].
  destruct a1 as [|d a2].
  { rewrite string_app_nil_l. rewrite G2.
    destruct b as [|e b1]; [discriminate|].
    rewrite G31. discriminate. }
  rewrite string_app_cons. simpl in Hn.
  destruct (isSpace2 c d); [apply (IH (String.length a2)); [lia | reflexivity]|].
  destruct a2 as [|e a3].
  { rewrite string_app_nil_l, G32. discriminate. }
  rewrite string_app_cons. simpl in Hn.
  destruct (isSpace3 c d e); [|discriminate].
  apply (IH (String.length a3)); [lia | reflexivity].
Qed.

Lemma trimRight_blank (pad : string) :
  allChars asciiSpace pad = true -> trimRight pad = "".
Proof.
  destruct pad as [|c pad]; [reflexivity|]. intros H. cbn [trimRight].
  now rewrite (trimLeft_blank _ H).
Qed.

(** Trailing ASCII white space after a graphic character is dropped, and
    nothing else. *)
Lemma trimRight_pad (a : string) (g : ascii) (pad : string) :
  graphic g = true -> allChars asciiSpace pad = true ->
  trimRight (a +:+ String g pad) = a +:+ String g "".
Proof.
  intros Hg Hp. induction a as [|c a IH].
  - rewrite !string_app_nil_l. cbn [trimRight].
    rewrite trimLeft_graphic by assumption. cbn [String.eqb].
    now rewrite (trimRight_blank _ Hp).
  - rewrite !string_app_cons. cbn [trimRight].
    pose proof (trimLeft_not_blank (String c a) pad g Hg) as Hn.
    rewrite string_app_cons in Hn.
    destruct (String.eqb_spec (trimLeft (String c (a +:+ String g pad))) "");
      [contradiction|].
    now rewrite IH.
Qed.

(** A text that begins and ends with a graphic character is what
    [TrimSpace] leaves of it once padded with ASCII white space. *)
Lemma TrimSpace_padded (pad1 pad2 a : string) (g1 g2 : ascii) :
  graphic g1 = true -> graphic g2 = true ->
  allChars asciiSpace pad1 = true -> allChars asciiSpace pad2 = true ->
  TrimSpace (pad1 +:+ String g1 (a +:+ String g2 pad2))
  = String g1 (a +:+ String g2 "").
Proof.
  intros H1 H2 P1 P2. unfold TrimSpace.
  rewrite trimLeft_pad, trimLeft_graphic by assumption.
  rewrite <- string_app_cons, trimRight_pad by assumption.
  apply string_app_cons.
Qed.

End TrimFacts.

(** ** The shape of an endpoint line *)

Section EndpointRegexFacts.

Lemma FindStringSubmatch_endpointRegex (t : string) :
  FindStringSubmatch endpointRegex t
  = match endpointAttempt t with Some m => m | None => [] end.
Proof. unfold endpointRegex. now rewrite FindStringSubmatch_Bol. Qed.

(** A greedy repetition over a whole run gives what the continuation
    gives after the run, when that succeeds. *)
Lemma star_run_exact {A} (p : ascii -> bool) (d rest : string) (pos : nat)
    (k : string -> nat -> option A) (m : A) :
  allChars p d = true ->
  star p rest (pos + String.length d) k = Some m ->
  star p (d +:+ rest) pos k = Some m.
Proof.
  revert pos. induction d as [|c d IH]; intros pos Hd Hk;
    rewrite ?string_app_nil_l, ?string_app_cons; simpl in *.
  - now rewrite Nat.add_0_r in Hk.
  - apply andb_true_iff in Hd as [Hc Hd]. rewrite Hc.
    rewrite (IH (S pos) Hd); [reflexivity|].
    now replace (S pos + String.length d)
      with (pos + S (String.length d)) by lia.
Qed.

Lemma star_whole_exact {A} (p : ascii -> bool) (d : string) (pos : nat)
    (k : string -> nat -> option A) (m : A) :
  allChars p d = true ->
  k "" (pos + String.length d) = Some m ->
  star p d pos k = Some m.
Proof.
  intros Hd Hk. rewrite <- (string_app_nil_r d).
  now apply star_run_exact.
Qed.

Lemma star_nil {A} (p : ascii -> bool) (pos : nat)
    (k : string -> nat -> option A) :
  star p "" pos k = k "" pos.
Proof. reflexivity. Qed.

(** [(a ++ v)[len(a) : len(a)+len(v)] = v] *)
Lemma slice_app_r (a v : string) (lo hi : nat) :
  lo = String.length a -> hi = lo + String.length v ->
  slice (a +:+ v) lo hi = v.
Proof.
  intros -> ->. unfold slice.
  replace (String.length a + String.length v - String.length a)
    with (String.length v) by lia.
  now rewrite substring_app_r, substring_all.
Qed.

Lemma slice_whole (t : string) (hi : nat) :
  hi = String.length t -> slice t 0 hi = t.
Proof. intros ->. unfold slice. rewrite Nat.sub_0_r. apply substring_all. Qed.

(** The shape of a line that matches: once trimmed it is the word
    [Endpoint], an equal sign and the value, with nothing but white space
    between them and nothing after the value. *)
Lemma matchesEndpoint_shape (text value : string) :
  matchesEndpoint text value ->
  exists ws1 ws2,
    TrimSpace text = "Endpoint" +:+ ws1 +:+ "=" +:+ ws2 +:+ value
    /\ allChars space ws1 = true /\ allChars space ws2 = true
    /\ value <> "" /\ allChars anyChar value = true.
Proof.
  intros [whole Hm]. rewrite FindStringSubmatch_endpointRegex in Hm.
  set (t := TrimSpace text) in *.
  destruct (endpointAttempt t) as [m|] eqn:Ha; [subst m | discriminate].
  unfold endpointAttempt in Ha.
  apply star_Some in Ha as (d0 & r1 & Ht & D0 & Ha).
  apply lit_Some in Ha as (r2 & -> & Ha).
  apply star_Some in Ha as (d1 & r3 & -> & D1 & Ha).
  apply lit_Some in Ha as (r4 & -> & Ha).
  apply star_Some in Ha as (d2 & r5 & -> & D2 & Ha).
  apply plus_Some in Ha as (v & r6 & -> & Nv & Dv & Ha).
  destruct r6 as [|c r6]; [|discriminate]. injection Ha as _ Hv.
  assert (Hd0 : d0 = "").
  { destruct d0 as [|c d0]; [reflexivity|]. exfalso.
    rewrite string_app_cons in Ht.
    apply TrimSpace_head in Ht. cbn [allChars] in D0.
    apply andb_true_iff in D0 as [Hc%space_asciiSpace _]. congruence. }
  subst d0. rewrite string_app_nil_l in Ht. rewrite string_app_nil_r in Ht.
  assert (Hval : value = v).
  { rewrite <- Hv. fold t. rewrite Ht. rewrite <- !string_app_assoc.
    apply slice_app_r; [rewrite !string_length_app; cbn [String.length]; lia
                       | reflexivity]. }
  clear Hv. subst value. exists d1, d2. split; [exact Ht|]. now repeat split.
Qed.

Lemma isWord_inv (s : string) :
  isWord s = true ->
  exists g r, s = String g r /\ graphic g = true /\ allChars graphic r = true.
Proof.
  unfold isWord. destruct s as [|g r]; [discriminate|]. cbn [allChars].
  cbn. intros [Hg Hr]%andb_true_iff. eauto.
Qed.

Lemma isWord_last (s : string) :
  isWord s = true ->
  exists r g, s = r +:+ String g "" /\ graphic g = true
              /\ allChars graphic r = true.
Proof.
  intros (g & r & -> & Hg & Hr)%isWord_inv.
  revert g Hg. induction r as [|c r IH]; intros g Hg.
  - exists "", g. auto.
  - cbn [allChars] in Hr. apply andb_true_iff in Hr as [Hc Hr].
    destruct (IH Hr c Hc) as (r0 & g0 & E & Hg0 & Hr0).
    exists (String g r0), g0. rewrite string_app_cons, <- E. cbn [allChars].
    now rewrite Hg, Hr0.
Qed.

Lemma allChars_impl (p q : ascii -> bool) (s : string) :
  (forall c, p c = true -> q c = true) ->
  allChars p s = true -> allChars q s = true.
Proof.
  intros Hpq. induction s as [|c s IH]; [reflexivity|]. cbn [allChars].
  intros [Hc Hs]%andb_true_iff. now rewrite (Hpq _ Hc), IH.
Qed.

(** A line made of the word [Endpoint], an equal sign and a value of
    printable characters, however padded with white space, matches, and
    the value is what is captured. *)
Lemma padded_line_matches (pad1 ws1 ws2 value pad2 : string) :
  allChars asciiSpace pad1 = true -> allChars space ws1 = true ->
  allChars space ws2 = true -> isWord value = true ->
  allChars asciiSpace pad2 = true ->
  TrimSpace (pad1 +:+ "Endpoint" +:+ ws1 +:+ "=" +:+ ws2 +:+ value +:+ pad2)
  = "Endpoint" +:+ ws1 +:+ "=" +:+ ws2 +:+ value
  /\ matchesEndpoint
       (pad1 +:+ "Endpoint" +:+ ws1 +:+ "=" +:+ ws2 +:+ value +:+ pad2) value.
Proof.
  intros P1 W1 W2 Hv P2.
  destruct (isWord_last _ Hv) as (r & g & Ev & Hg & Hr).
  assert (Ht : TrimSpace (pad1 +:+ "Endpoint" +:+ ws1 +:+ "=" +:+ ws2
                          +:+ value +:+ pad2)
               = "Endpoint" +:+ ws1 +:+ "=" +:+ ws2 +:+ value).
  { rewrite Ev.
    change ("Endpoint" +:+ ?x) with (String "E" ("ndpoint" +:+ x)).
    replace ("ndpoint" +:+ ws1 +:+ "=" +:+ ws2 +:+ (r +:+ String g "") +:+ pad2)
      with (("ndpoint" +:+ ws1 +:+ "=" +:+ ws2 +:+ r) +:+ String g pad2).
    2:{ rewrite !string_app_assoc. reflexivity. }
    rewrite TrimSpace_padded by (assumption || reflexivity).
    rewrite !string_app_assoc. reflexivity. }
  split; [exact Ht|]. exists ("Endpoint" +:+ ws1 +:+ "=" +:+ ws2 +:+ value).
  rewrite Ht, FindStringSubmatch_endpointRegex.
  set (t := "Endpoint" +:+ ws1 +:+ "=" +:+ ws2 +:+ value).
  assert (Ha : endpointAttempt t = Some [t; value]); [|now rewrite Ha].
  destruct (isWord_inv _ Hv) as (g1 & r1 & E1 & Hg1 & Hr1).
  destruct (graphic_not_space g1 Hg1) as (_ & Hs1 & Ha1 & _).
  unfold endpointAttempt.
  unfold t at 1. change ("Endpoint" +:+ ?x) with (String "E" ("ndpoint" +:+ x)).
  rewrite star_stop by reflexivity.
  change (String "E" ("ndpoint" +:+ ?x)) with ("Endpoint" +:+ x).
  rewrite lit_app. apply star_run_exact; [assumption|].
  change ("=" +:+ ?x) with (String "=" x). rewrite star_stop by reflexivity.
  change (String "=" ?x) with ("=" +:+ x). rewrite lit_app.
  apply star_run_exact; [assumption|].
  rewrite E1. rewrite star_stop by assumption.
  cbn [plus]. rewrite Ha1.
  apply star_whole_exact;
    [eapply allChars_impl; [|exact Hr1];
     intros c Hc; now destruct (graphic_not_space c Hc) as (_ & _ & ? & _)|].
  f_equal. f_equal; [|f_equal].
  - apply slice_whole. unfold t. rewrite E1.
    rewrite !string_length_app. cbn [String.length]. lia.
  - unfold t. rewrite E1. rewrite <- !string_app_assoc.
    apply slice_app_r; [rewrite !string_length_app; cbn [String.length]; lia
                       | cbn [String.length]; lia].
Qed.

End EndpointRegexFacts.

(** ** Host and port *)

Section SplitHostPortFacts.

Lemma without_app (c : ascii) (a b : string) :
  without c (a +:+ b) = without c a && without c b.
Proof. apply allChars_app. Qed.

Lemma without_cons (c a : ascii) (s : string) :
  without c (String a s) = negb (Ascii.eqb a c) && without c s.
Proof. reflexivity. Qed.

Lemma IndexByteString_without (c : ascii) (s : string) :
  without c s = true -> IndexByteString s c = (-1)%Z.
Proof.
  induction s as [|a s IH]; [reflexivity|]. cbn [without allChars].
  intros [Ha Hs]%andb_true_iff. cbn [IndexByteString].
  apply negb_true_iff in Ha. rewrite Ha, (IH Hs). reflexivity.
Qed.

Lemma LastIndexByteString_without (c : ascii) (s : string) :
  without c s = true -> LastIndexByteString s c = (-1)%Z.
Proof.
  induction s as [|a s IH]; [reflexivity|]. cbn [without allChars].
  intros [Ha Hs]%andb_true_iff. cbn [LastIndexByteString].
  apply negb_true_iff in Ha. rewrite Ha, (IH Hs). reflexivity.
Qed.


Lemma LastIndexByteString_app (c : ascii) (a b : string) :
  without c b = true ->
  LastIndexByteString (a +:+ String c b) c = Z.of_nat (String.length a).
Proof.
  intros Hb. induction a as [|x a IH];
    rewrite ?string_app_nil_l, ?string_app_cons.
  - cbn [LastIndexByteString]. rewrite (LastIndexByteString_without _ _ Hb).
    now rewrite Ascii.eqb_refl.
  - cbn [LastIndexByteString String.length]. rewrite IH.
    destruct (Z.leb_spec 0 (Z.of_nat (String.length a))); lia.
Qed.

Lemma slice_app_l (a b : string) (hi : nat) :
  hi = String.length a -> slice (a +:+ b) 0 hi = a.
Proof.
  intros ->. unfold slice. rewrite Nat.sub_0_r. apply substring_app_l.
Qed.

Lemma slice_tail (a b : string) (lo hi : nat) :
  lo = String.length a -> hi = String.length (a +:+ b) ->
  slice (a +:+ b) lo hi = b.
Proof.
  intros -> ->. apply slice_app_r; [reflexivity|].
  now rewrite string_length_app.
Qed.

(** A text without a colon has no port. *)
Lemma SplitHostPort_no_colon (s : string) :
  without ":" s = true ->
  SplitHostPort s = addrErr s missingPort.
Proof.
  intros H. unfold SplitHostPort.
  now rewrite (LastIndexByteString_without _ _ H).
Qed.

(** [host:port], with neither colon nor bracket in the host or the port. *)
Lemma SplitHostPort_plain (host port : string) :
  without ":" host = true -> without "[" host = true ->
  without "]" host = true -> without ":" port = true ->
  without "[" port = true -> without "]" port = true ->
  SplitHostPort (host +:+ ":" +:+ port) = Ok (host, port).
Proof.
  intros H1 H2 H3 P1 P2 P3. unfold SplitHostPort.
  change (":" +:+ port) with (String ":" port).
  rewrite (LastIndexByteString_app _ _ _ P1).
  destruct (Z.ltb_spec (Z.of_nat (String.length host)) 0); [lia|].
  assert (Hb : isByte (byteAt (host +:+ String ":" port) 0) "[" = false).
  { destruct host as [|c host]; [reflexivity|].
    cbn [without allChars] in H2. apply andb_true_iff in H2 as [Hc _].
    apply negb_true_iff in Hc. exact Hc. }
  rewrite Hb, Nat2Z.id.
  rewrite slice_app_l by reflexivity.
  rewrite (IndexByteString_without _ _ H1). cbn [Z.leb Z.compare].
  rewrite slice_whole by reflexivity.
  rewrite (IndexByteString_without "[")
    by (now rewrite without_app, H2, without_cons, P2).
  rewrite (IndexByteString_without "]")
    by (now rewrite without_app, H3, without_cons, P3).
  cbn [Z.leb Z.compare]. do 2 f_equal.
  replace (host +:+ String ":" port) with ((host +:+ ":") +:+ port)
    by now rewrite string_app_assoc.
  apply slice_tail; [|reflexivity].
  rewrite string_length_app. cbn [String.length]. lia.
Qed.


End SplitHostPortFacts.

(** ** The lines that register an entry *)

Section ParserShapes.
Context {W : Type} `{!Host W}.
Implicit Types (st : @State W).

Lemma TrimSpace_word (v : string) : isWord v = true -> TrimSpace v = v.
Proof.
  intros Hv. destruct (isWord_inv _ Hv) as (g & r & E & Hg & _).
  destruct (isWord_last _ Hv) as (r1 & g1 & E1 & Hg1 & _).
  unfold TrimSpace. rewrite E at 1. rewrite trimLeft_graphic by assumption.
  rewrite <- E, E1. now apply trimRight_pad.
Qed.

(** X19.  The only lines for which the scanning loop registers an entry are
    those that, once trimmed, are the word [Endpoint] (spelled so), an equal
    sign and a value, separated by white space only; the endpoint registered
    is the value trimmed, the hostname its host portion. *)
Theorem only_endpoint_lines_register (interfaceName text : string) st :
  configs (monitor (exec (parseLine interfaceName text) st))
  <> configs (monitor st) ->
  exists ws1 ws2 value c,
    TrimSpace text = "Endpoint" +:+ ws1 +:+ "=" +:+ ws2 +:+ value
    /\ allChars space ws1 = true /\ allChars space ws2 = true
    /\ value <> ""
    /\ configs (monitor (exec (parseLine interfaceName text) st))
       = configs (monitor st) ++ [c]
    /\ Interface c = interfaceName
    /\ Endpoint c = TrimSpace value
    /\ exists port, SplitHostPort (Endpoint c) = Ok (Hostname c, port).
Proof.
  intros Hne. unfold exec in *.
  destruct (lineEndpoint text) as [[endpoint host]|] eqn:Hl.
  - rewrite (parseLine_register _ _ _ _ _ Hl) in *. cbn [snd] in *.
    apply lineEndpoint_Some in Hl as (value & Hm & -> & [port Hs] & _).
    destruct (matchesEndpoint_shape _ _ Hm)
      as (ws1 & ws2 & E & S1 & S2 & Nv & _).
    exists ws1, ws2, value. eexists. repeat split; eauto.
  - rewrite (parseLine_skip _ _ _ Hl) in Hne. now contradiction Hne.
Qed.

(** A line [Endpoint = <value>], however padded, whose value is a word
    that splits into host and port is registered, unless the host begins
    with a dotted quad. *)
Lemma padded_endpoint_line_registers
    (interfaceName pad1 ws1 ws2 value pad2 host port : string) st :
  allChars asciiSpace pad1 = true -> allChars space ws1 = true ->
  allChars space ws2 = true -> allChars asciiSpace pad2 = true ->
  isWord value = true ->
  SplitHostPort value = Ok (host, port) ->
  ~ dottedQuadPrefix host ->
  lineEndpoint
    (pad1 +:+ "Endpoint" +:+ ws1 +:+ "=" +:+ ws2 +:+ value +:+ pad2)
  = Some (value, host).
Proof.
  intros P1 W1 W2 P2 Hv Hs Hq.
  apply lineEndpoint_Some. exists value.
  split; [now apply padded_line_matches|].
  rewrite (TrimSpace_word _ Hv). split; [reflexivity|].
  split; [|assumption]. exists port. now rewrite (TrimSpace_word _ Hv).
Qed.

Lemma word_host_port (host port : string) :
  allChars graphic host = true -> allChars graphic port = true ->
  isWord (host +:+ ":" +:+ port) = true.
Proof.
  intros Hh Hp. unfold isWord. rewrite !allChars_app, Hh, Hp.
  rewrite andb_true_r. destruct host; reflexivity.
Qed.

(** X20.  A line [Endpoint = host:port] of printable characters, with
    neither colon nor bracket in the host or the port, however indented and
    spaced, registers one entry under the interface, with the hostname
    [host] and, for last resolved address, what the resolver answers for
    [host] (none if it fails); unless the host begins with a dotted quad. *)
Theorem plain_endpoint_line_is_registered
    (interfaceName pad1 ws1 ws2 pad2 host port : string) st :
  allChars asciiSpace pad1 = true -> allChars space ws1 = true ->
  allChars space ws2 = true -> allChars asciiSpace pad2 = true ->
  allChars graphic host = true -> allChars graphic port = true ->
  without ":" host = true -> without "[" host = true ->
  without "]" host = true -> without ":" port = true ->
  without "[" port = true -> without "]" port = true ->
  ~ dottedQuadPrefix host ->
  let text := pad1 +:+ "Endpoint" +:+ ws1 +:+ "=" +:+ ws2
              +:+ (host +:+ ":" +:+ port) +:+ pad2 in
  let r := fst (ResolveIPAddr "ip4" host (world st)) in
  configs (monitor (exec (parseLine interfaceName text) st))
  = configs (monitor st)
    ++ [{| Interface := interfaceName;
           Endpoint := host +:+ ":" +:+ port;
           Hostname := host;
           LastIP := match r with Ok ip => ip | Err _ => [] end |}]
  /\ queries (added st (exec (parseLine interfaceName text) st))
     = [(host, r)].
Proof.
  intros P1 W1 W2 P2 Gh Gp H1 H2 H3 Q1 Q2 Q3 Hq text r.
  assert (Hl : lineEndpoint text = Some (host +:+ ":" +:+ port, host)).
  { apply padded_endpoint_line_registers with (port := port);
      auto using word_host_port, SplitHostPort_plain. }
  unfold exec. rewrite (parseLine_register _ _ _ _ _ Hl). cbn [snd].
  cbn [monitor configs setConfigs trace]. split; [reflexivity|].
  unfold added. cbn [trace]. now rewrite drop_app_length.
Qed.


(** X22.  An endpoint without a port, that is without a colon, registers
    nothing and is not an error: the line is passed over. *)
Theorem endpoint_without_port_is_passed_over
    (interfaceName text value : string) st :
  matchesEndpoint text value ->
  without ":" (TrimSpace value) = true ->
  parseLine interfaceName text st = (tt, st).
Proof.
  intros [whole Hm] Hc. apply parseLine_skip. unfold lineEndpoint.
  rewrite Hm. cbn [length Nat.eqb nth].
  now rewrite (SplitHostPort_no_colon _ Hc).
Qed.

End ParserShapes.

(** ** The scanner *)

Section ScannerFacts.

Lemma pieces_not_nil (data : string) : pieces data <> [].
Proof.
  destruct data as [|c data]; [discriminate|]. cbn [pieces].
  destruct (Ascii.eqb c LF); [discriminate|].
  destruct (pieces data); discriminate.
Qed.

Lemma pieces_line (l rest : string) :
  without LF l = true -> pieces (l +:+ String LF rest) = l :: pieces rest.
Proof.
  induction l as [|c l IH]; rewrite ?string_app_nil_l, ?string_app_cons.
  - intros _. cbn [pieces]. now rewrite Ascii.eqb_refl.
  - rewrite without_cons. intros [Hc Hl]%andb_true_iff.
    apply negb_true_iff in Hc. cbn [pieces]. now rewrite Hc, (IH Hl).
Qed.

Lemma pieces_last (l : string) : without LF l = true -> pieces l = [l].
Proof.
  induction l as [|c l IH]; [reflexivity|].
  rewrite without_cons. intros [Hc Hl]%andb_true_iff.
  apply negb_true_iff in Hc. cbn [pieces]. now rewrite Hc, (IH Hl).
Qed.

Lemma tokens_short (p : string) (ps : list string) :
  ps <> [] ->
  (N.of_nat (String.length p) < MaxScanTokenSize)%N ->
  tokens (p :: ps) = (dropCR p :: fst (tokens ps), snd (tokens ps)).
Proof.
  intros Hps Hlen. cbn [tokens].
  destruct (N.leb_spec MaxScanTokenSize (N.of_nat (String.length p)));
    [lia|].
  destruct ps as [|q ps]; [contradiction|].
  now destruct (tokens (q :: ps)).
Qed.

Lemma tokens_long (p : string) (ps : list string) :
  (MaxScanTokenSize <= N.of_nat (String.length p))%N ->
  tokens (p :: ps) = ([], Some ErrTooLong).
Proof.
  intros Hlen. cbn [tokens].
  destruct (N.leb_spec MaxScanTokenSize (N.of_nat (String.length p)));
    [|lia].
  destruct ps; [|reflexivity]. destruct p; [|reflexivity].
  cbn in Hlen. unfold MaxScanTokenSize in Hlen. lia.
Qed.


(** The tokens of complete lines followed by [tail]. *)
Lemma scan_lines_then (ls : list string) (tail : string) :
  Forall (scannable 0) ls ->
  tokens (pieces (joinWith (String LF "") ls +:+ tail))
  = (map dropCR ls ++ fst (tokens (pieces tail)), snd (tokens (pieces tail))).
Proof.
  induction 1 as [|l ls [Hl Hn] _ IH]; cbn [joinWith map app].
  - rewrite string_app_nil_l. now destruct (tokens (pieces tail)).
  - rewrite !string_app_assoc. change (String LF "" +:+ ?x) with (String LF x).
    rewrite (pieces_line _ _ Hl).
    rewrite tokens_short; [|apply pieces_not_nil|].
    + now rewrite IH.
    + now rewrite Nat.add_0_r in Hn.
Qed.



(** A text of lines that each end with a line feed is delivered line by
    line, without the line feeds and without one carriage return before
    them; a last line that does not end with a line feed is delivered
    too. *)
Lemma scanLines_lines (ls : list string) (last : string) :
  Forall (scannable 0) ls ->
  scannable 0 last ->
  scanLines (joinWith (String LF "") ls) = (map dropCR ls, None)
  /\ (last <> "" ->
      scanLines (joinWith (String LF "") ls +:+ last)
      = (map dropCR (ls ++ [last]), None)).
Proof.
  intros Hls [Hl Hn]. unfold scanLines. split.
  - rewrite <- (string_app_nil_r (joinWith _ ls)).
    rewrite (scan_lines_then _ _ Hls). cbn. now rewrite app_nil_r.
  - intros Hne. rewrite (scan_lines_then _ _ Hls), (pieces_last _ Hl).
    rewrite map_app. cbn [map tokens].
    destruct last as [|c last]; [contradiction|].
    rewrite Nat.add_0_r in Hn.
    destruct (N.leb_spec MaxScanTokenSize
                (N.of_nat (String.length (String c last)))); [lia|].
    reflexivity.
Qed.


Lemma scanLines_too_long (ls : list string) (big tail : string) :
  Forall (scannable 0) ls ->
  without LF big = true ->
  (MaxScanTokenSize <= N.of_nat (String.length big))%N ->
  tail = "" \/ (exists t, tail = String LF t) ->
  scanLines (joinWith (String LF "") ls +:+ big +:+ tail)
  = (map dropCR ls, Some ErrTooLong).
Proof.
  intros Hls Hb Hn Ht. unfold scanLines.
  rewrite (scan_lines_then _ _ Hls).
  assert (Hp : exists ps, pieces (big +:+ tail) = big :: ps).
  { destruct Ht as [->|[t ->]].
    - rewrite string_app_nil_r, (pieces_last _ Hb). eauto.
    - rewrite (pieces_line _ _ Hb). eauto. }
  destruct Hp as [ps ->]. rewrite (tokens_long _ _ Hn). cbn.
  now rewrite app_nil_r.
Qed.

Section WithHost.
Context {W : Type} `{!Host W}.

Lemma scanConfig_run (interfaceName data : string) (st : @State W) :
  scanConfig interfaceName data st
  = (snd (scanLines data),
     exec (forEach (fst (scanLines data)) (parseLine interfaceName)) st).
Proof.
  rewrite <- exec_scanConfig, <- (scanConfig_error interfaceName data st).
  unfold exec. now destruct (scanConfig interfaceName data st).
Qed.

(** X23.  The parser reads a configuration line by line: each line that ends
    with a line feed is handed to the loop body without the line feed and
    without one carriage return before it, a last line without line feed is
    handed over too, and no error is returned. *)
Theorem config_is_parsed_line_by_line
    (interfaceName : string) (ls : list string) (last : string)
    (st : @State W) :
  Forall (scannable 0) ls ->
  scannable 0 last ->
  scanConfig interfaceName (joinWith (String LF "") ls) st
  = (None, exec (forEach (map dropCR ls) (parseLine interfaceName)) st)
  /\ (last <> "" ->
      scanConfig interfaceName (joinWith (String LF "") ls +:+ last) st
      = (None,
         exec (forEach (map dropCR (ls ++ [last])) (parseLine interfaceName))
           st)).
Proof.
  intros Hls Hl. destruct (scanLines_lines ls last Hls Hl) as [E1 E2].
  split.
  - now rewrite scanConfig_run, E1.
  - intros Hne. now rewrite scanConfig_run, (E2 Hne).
Qed.


(** X25.  A line of [MaxScanTokenSize] bytes or more stops the parser: it
    returns the scanner's error, having registered what the lines before
    give and nothing of what follows. *)
Theorem too_long_line_stops_the_parser
    (interfaceName : string) (ls : list string) (big tail : string)
    (st : @State W) :
  Forall (scannable 0) ls ->
  without LF big = true ->
  (MaxScanTokenSize <= N.of_nat (String.length big))%N ->
  tail = "" \/ (exists t, tail = String LF t) ->
  scanConfig interfaceName (joinWith (String LF "") ls +:+ big +:+ tail) st
  = (Some ErrTooLong,
     exec (scanConfig interfaceName (joinWith (String LF "") ls)) st).
Proof.
  intros Hls Hb Hn Ht. rewrite scanConfig_run, exec_scanConfig.
  rewrite (scanLines_too_long _ _ _ Hls Hb Hn Ht). cbn [fst snd].
  do 2 f_equal. unfold scanLines.
  rewrite <- (string_app_nil_r (joinWith _ ls)).
  rewrite (scan_lines_then _ _ Hls). cbn. now rewrite app_nil_r.
Qed.

End WithHost.

End ScannerFacts.

(** ** The command line *)

Section CommandLineFacts.
Import Cli.




Lemma assign_help (key value : string) (a a' : Args) :
  assign key value a = Ok a' -> help a' = help a.
Proof.
  unfold assign.
  repeat match goal with
         | |- context [if ?b then _ else _] => destruct b
         end; intros [= <-]; reflexivity.
Qed.


Lemma loop_help (argv : list string) :
  forall (a a' : Args),
    loop argv a = Ok a' -> help a = true -> help a' = true.
Proof.
  induction argv as [argv IH] using (induction_ltof1 _ (@length string)).
  unfold ltof in IH. intros a a'. destruct argv as [|arg rest].
  { now intros [= <-]. }
  cbn [loop].
  destruct (negb (HasPrefix arg "--")).
  { destruct (_ || _); [|discriminate].
    intros H _. apply (IH rest) in H; [exact H | cbn; lia | reflexivity]. }
  destruct (String.eqb arg "--help").
  { intros H _. apply (IH rest) in H; [exact H | cbn; lia | reflexivity]. }
  assert (Hstep : forall key value tl,
            length tl <= length rest ->
            match assign key value a with
            | Ok a' => loop tl a'
            | Err e => Err e
            end = Ok a' -> help a = true -> help a' = true).
  { intros key value tl Hl. destruct (assign key value a) as [a1|] eqn:E;
      [|discriminate].
    intros H Ha. apply (IH tl) in H; [exact H | cbn; lia |].
    now rewrite (assign_help _ _ _ _ E). }
  assert (Hlook :
            match rest with
            | [] =>
                match assign arg "" a with
                | Ok a' => loop rest a'
                | Err e => Err e
                end
            | next :: rest' =>
                if negb (HasPrefix next "--")
                then match assign arg next a with
                     | Ok a' => loop rest' a'
                     | Err e => Err e
                     end
                else match assign arg "" a with
                     | Ok a' => loop rest a'
                     | Err e => Err e
                     end
            end = Ok a' -> help a = true -> help a' = true).
  { destruct rest as [|next rest2]; [apply Hstep; cbn; lia|].
    destruct (negb (HasPrefix next "--")); apply Hstep; cbn; lia. }
  destruct (SplitN arg "=" 2) as [|k [|v [|? ?]]];
    [exact Hlook | exact Hlook | | exact Hlook].
  apply Hstep. lia.
Qed.


(** X27.  [--help] among the arguments of a command line that is accepted
    sets the help flag, wherever it stands: it is never taken as the value
    of the option before it. *)
Theorem help_is_seen_anywhere (argv : list string) (a a' : Args) :
  In "--help" argv ->
  loop argv a = Ok a' ->
  help a' = true.
Proof.
  revert a a'.
  induction argv as [argv IH] using (induction_ltof1 _ (@length string)).
  unfold ltof in IH. intros a a' Hin. destruct argv as [|arg rest].
  { destruct Hin. }
  cbn [loop].
  destruct (negb (HasPrefix arg "--")) eqn:Hp.
  { destruct Hin as [E|Hin]; [subst arg; discriminate Hp|].
    destruct (_ || _); [|discriminate].
    apply (IH rest); [cbn; lia | exact Hin]. }
  destruct (String.eqb_spec arg "--help") as [->|Hne].
  { intros H. apply (loop_help _ _ _ H). reflexivity. }
  destruct Hin as [E|Hin]; [now subst arg|].
  assert (Hstep : forall key value tl,
            length tl <= length rest -> In "--help" tl ->
            match assign key value a with
            | Ok a' => loop tl a'
            | Err e => Err e
            end = Ok a' -> help a' = true).
  { intros key value tl Hl Ht. destruct (assign key value a) as [a1|];
      [|discriminate].
    apply (IH tl); [cbn; lia | exact Ht]. }
  assert (Hlook :
            match rest with
            | [] =>
                match assign arg "" a with
                | Ok a' => loop rest a'
                | Err e => Err e
                end
            | next :: rest' =>
                if negb (HasPrefix next "--")
                then match assign arg next a with
                     | Ok a' => loop rest' a'
                     | Err e => Err e
                     end
                else match assign arg "" a with
                     | Ok a' => loop rest a'
                     | Err e => Err e
                     end
            end = Ok a' -> help a' = true).
  { destruct rest as [|next rest2]; [destruct Hin|].
    destruct (negb (HasPrefix next "--")) eqn:Hnx.
    - apply Hstep; [cbn; lia|].
      destruct Hin as [E|Hin]; [subst next; discriminate Hnx | exact Hin].
    - apply Hstep; [cbn; lia | exact Hin]. }
  destruct (SplitN arg "=" 2) as [|k [|v [|? ?]]];
    [exact Hlook | exact Hlook | | exact Hlook].
  apply Hstep; [lia | exact Hin].
Qed.

End CommandLineFacts.

(** ** The properties at work on the concrete host *)

Section Examples.
Import TestHost.

(** C1, counterexample.  Two [Endpoint] lines give two entries, the
    first line first: the parser does not produce at most one entry and
    the last line does not replace the first. *)
Lemma C1_counterexample :
  let st := exec (scanConfig (Host0 := steady) "wg0" confTwoPeers)
              (start "") in
  Hostname <$> configs (monitor st) = ["a.example.com"; "b.example.com"]
  /\ ~ (length (configs (monitor st)) <= 1).
Proof. vm_compute. split; [reflexivity | lia]. Qed.

(** C2, counterexample.  After discovery of one interface whose
    configuration has three [Endpoint] lines, one of them without a
    host, the registry has three entries under the same interface name
    and one entry with an empty hostname. *)
Lemma C2_counterexample :
  let st := exec (initialize (Host0 := installed)) (start "") in
  reachable (Host0 := installed) st
  /\ Interface <$> configs (monitor st) = ["wg0"; "wg0"; "wg0"]
  /\ Hostname <$> configs (monitor st)
     = ["a.example.com"; "b.example.com"; ""]
  /\ ~ NoDup (Interface <$> configs (monitor st))
  /\ ~ Forall (fun c => Hostname c <> "") (configs (monitor st)).
Proof.
  intros st. split; [now apply reach_init|].
  assert (Hi : Interface <$> configs (monitor st) = ["wg0"; "wg0"; "wg0"])
    by (vm_compute; reflexivity).
  assert (Hh : Hostname <$> configs (monitor st)
               = ["a.example.com"; "b.example.com"; ""])
    by (vm_compute; reflexivity).
  repeat split; try assumption.
  - rewrite Hi. intros [Hn _]%NoDup_cons. apply Hn. left.
  - intros HF0.
    assert (HF : Forall (fun h : string => h <> "")
                   (Hostname <$> configs (monitor st)))
      by (apply Forall_fmap; exact HF0).
    rewrite Hh in HF. do 2 apply Forall_cons_1 in HF as [_ HF].
    apply Forall_cons_1 in HF as [HF _]. now apply HF.
Qed.

(** C2 at work: the state reached by discovery on the host [installed],
    then a pass. *)
Lemma C2_witness :
  let st := exec (initialize (Host0 := installed)) (start "") in
  reachable (Host0 := installed) st
  /\ length (configs (monitor (exec (checkEndpoints (Host0 := installed)) st)))
     = length (configs (monitor st)).
Proof.
  intros st.
  assert (Hr : reachable (Host0 := installed) st) by now apply reach_init.
  split; [exact Hr|].
  exact (proj1 (C2_address_overwritten_only_on_success
                  (Host0 := installed) st Hr)).
Defined.

(** C3, counterexample.  The two peers of [wg0] both hold [ip1] after
    discovery and both resolve to [ip2] in the pass that follows: the
    unit of [wg0] is restarted twice in that pass, once for each of
    them, not exactly once. *)
Lemma C3_counterexample :
  let st := exec (initialize (Host0 := twoPeersMoving)) (start "") in
  let st1 := exec (checkEndpoints (Host0 := twoPeersMoving)) st in
  let unit := "wg-quick@wg0.service" in
  reachable (Host0 := twoPeersMoving) st
  /\ Interface <$> configs (monitor st) = ["wg0"; "wg0"]
  /\ Hostname <$> configs (monitor st) = ["a.example.com"; "b.example.com"]
  /\ LastIP <$> configs (monitor st) = [ip1; ip1]
  /\ resolutions (added st st1) = [Ok ip2; Ok ip2]
  /\ Equal ip1 ip2 = false
  /\ LastIP <$> configs (monitor st1) = [ip2; ip2]
  /\ restarts (added st st1) = [unit; unit]
  /\ ~ (exists l1 l2,
          restarts (added st st1) = l1 ++ unit :: l2
          /\ (unit ∉ l1) /\ (unit ∉ l2)).
Proof.
  intros st st1 unit. split; [now apply reach_init|].
  assert (Hr : restarts (added st st1) = [unit; unit])
    by (vm_compute; reflexivity).
  repeat split; try (vm_compute; reflexivity).
  rewrite Hr. intros (l1 & l2 & E & H1 & H2).
  destruct l1 as [|u l1].
  - injection E as E2. apply H2. rewrite <- E2. left.
  - injection E as E1 E2. apply H1. rewrite <- E1. left.
Qed.

(** C3 at work.  The second peer of [wg0] on the host [twoPeersMoving],
    after the iteration of the first one: its address moves from [ip1]
    to [ip2].  And [vpn] alone in the registry, on a host where the
    restart job fails: its unit is restarted once in the pass. *)
Lemma C3_witness :
  let st := exec (initialize (Host0 := twoPeersMoving)) (start "") in
  let c := {| Interface := "wg0";
              Endpoint := "b.example.com:51820";
              Hostname := "b.example.com";
              LastIP := ip1 |} in
  let before := exec (forEach [0] (checkEndpoint (Host0 := twoPeersMoving)))
                  st in
  let st1 := exec (checkEndpoints (Host0 := twoPeersMoving)) st in
  let solo := withConfigs [vpn] "" in
  let solo1 := exec (checkEndpoints (Host0 := moved)) solo in
  configs (monitor st) !! 1 = Some c
  /\ ResolveIPAddr (Host := twoPeersMoving) "ip4" "b.example.com"
       (world before) = (Ok ip2, 5)
  /\ Equal ip1 ip2 = false
  /\ LastIP <$> configs (monitor st1) !! 1 = Some ip2
  /\ restarts (added st st1)
     = restarts (added st before)
       ++ "wg-quick@wg0.service" :: []
  /\ configs (monitor solo) !! 0 = Some vpn
  /\ ResolveIPAddr (Host := moved) "ip4" "vpn.example.com" 0 = (Ok ip2, 1)
  /\ trace solo1
     = [EvResolve "vpn.example.com" (Ok ip2);
        EvRestart "wg-quick@wg0.service" (Ok "failed") [setLastIP ip2 vpn]]
  /\ LastIP <$> configs (monitor solo1) !! 0 = Some ip2
  /\ restarts (added solo solo1) = [] ++ "wg-quick@wg0.service" :: [].
Proof.
  intros st c before st1 solo solo1.
  pose proof (C3_drift_restarts_once (Host0 := twoPeersMoving) 1 c ip1 ip2 5
                st eq_refl eq_refl eq_refl eq_refl)
    as (_ & _ & _ & _ & _ & Hb & _ & Hr & _).
  pose proof (C3_drift_restarts_once (Host0 := moved) 0 vpn ip1 ip2 1
                solo eq_refl eq_refl eq_refl eq_refl)
    as (_ & _ & _ & _ & _ & Hv & _ & Hs & _).
  split; [reflexivity|]. split; [reflexivity|]. split; [reflexivity|].
  split; [exact Hb|]. split; [exact Hr|].
  split; [reflexivity|]. split; [reflexivity|]. split; [reflexivity|].
  split; [exact Hv | exact Hs].
Defined.

(** C4 at work: the endpoint [10.0.0.1:51820]. *)
Lemma C4_witness :
  fst (scanLines confLiteral) = ["[Peer]"] ++ "Endpoint = 10.0.0.1:51820" :: []
  /\ matchesEndpoint "Endpoint = 10.0.0.1:51820" "10.0.0.1:51820"
  /\ hostPortion "10.0.0.1:51820" "10.0.0.1"
  /\ dottedQuad "10.0.0.1"
  /\ exec (scanConfig (Host0 := steady) "wg1" confLiteral) (start "")
     = exec (forEach (["[Peer]"] ++ []) (parseLine (Host0 := steady) "wg1"))
         (start "").
Proof.
  assert (H1 : fst (scanLines confLiteral)
               = ["[Peer]"] ++ "Endpoint = 10.0.0.1:51820" :: [])
    by reflexivity.
  assert (H2 : matchesEndpoint "Endpoint = 10.0.0.1:51820" "10.0.0.1:51820")
    by (eexists; vm_compute; reflexivity).
  assert (H3 : hostPortion "10.0.0.1:51820" "10.0.0.1")
    by (eexists; vm_compute; reflexivity).
  assert (H4 : dottedQuad "10.0.0.1")
    by (exists "10", "0", "0", "1"; repeat split; reflexivity).
  split; [exact H1|]. split; [exact H2|]. split; [exact H3|].
  split; [exact H4|].
  exact (proj1 (proj2 (C4_literal_ipv4_not_registered (Host0 := steady)
           "wg1" confLiteral _ _ _ _ _ (start "") H1 H2 H3 H4))).
Defined.

(** C5, at the failing input.  The only [Endpoint] line names the host
    [1.2.3.4.example.com], which is not a dotted quad, and the parser
    registers nothing. *)
Lemma C5_dotted_hostname_is_dropped :
  fst (scanLines confDottedName)
  = ["[Peer]"; "Endpoint = 1.2.3.4.example.com:51820"]
  /\ lineEndpoint "[Peer]" = None
  /\ matchesEndpoint "Endpoint = 1.2.3.4.example.com:51820"
       "1.2.3.4.example.com:51820"
  /\ hostPortion "1.2.3.4.example.com:51820" "1.2.3.4.example.com"
  /\ ~ dottedQuad "1.2.3.4.example.com"
  /\ configs (monitor (exec (scanConfig (Host0 := steady) "wg0"
                              confDottedName) (start ""))) = [].
Proof.
  repeat split; try reflexivity.
  - eexists. vm_compute. reflexivity.
  - eexists. vm_compute. reflexivity.
  - intros H%dottedQuad_chars. vm_compute in H. discriminate.
Qed.

(** C6 at work: the resolver is down. *)
Lemma C6_witness :
  let st := withConfigs [vpn] "" in
  configs (monitor st) !! 0 = Some vpn
  /\ ResolveIPAddr (Host := down) "ip4" "vpn.example.com" 0
     = (Err "no such host", 1)
  /\ trace (exec (checkEndpoints (Host0 := down)) st)
     = [EvResolve "vpn.example.com" (Err "no such host")]
  /\ configs (monitor (exec (checkEndpoints (Host0 := down)) st)) !! 0
     = Some vpn.
Proof.
  intros st.
  pose proof (C6_failed_resolution_is_skipped (Host0 := down) 0 vpn
                "no such host" 1 st eq_refl eq_refl) as (_ & _ & _ & _ & Hc).
  split; [reflexivity|]. split; [reflexivity|].
  split; [reflexivity | exact Hc].
Defined.

(** C7 at work: an entry without a last resolved address; the first pass
    records [ip1] and restarts, the second one is quiet. *)
Lemma C7_witness :
  let st := withConfigs [setLastIP [] vpn] "" in
  let st1 := exec (checkEndpoints (Host0 := steady)) st in
  let st2 := exec (checkEndpoints (Host0 := steady)) st1 in
  resolutions (added st st1) = Ok <$> [ip1]
  /\ resolutions (added st1 st2) = Ok <$> [ip1]
  /\ restarts (added st st1) = ["wg-quick@wg0.service"]
  /\ restarts (added st1 st2) = [].
Proof.
  intros st st1 st2.
  assert (H1 : resolutions (added st st1) = Ok <$> [ip1]) by reflexivity.
  assert (H2 : resolutions (added st1 st2) = Ok <$> [ip1]) by reflexivity.
  split; [exact H1|]. split; [exact H2|]. split; [reflexivity|].
  exact (proj1 (C7_second_pass_is_quiet (Host0 := steady) [ip1] st H1 H2)).
Defined.

(** C9 at work: pinned to [wg0], a request for [wg1]. *)
Lemma C9_witness :
  let st := withConfigs [vpn] "wg0" in
  singleInterface (monitor st) = "wg0"
  /\ fst (handleRestart (Host0 := steady) (Some "wg1") st)
     = {| Status := 400;
          Body := {| Success := false;
                     Message := "Only interface 'wg0' is monitored" |} |}
  /\ snd (handleRestart (Host0 := steady) (Some "wg1") st) = st.
Proof.
  intros st.
  assert (Hn : forall a b : string, String.eqb a b = false -> a <> b)
    by (intros a b H; now apply String.eqb_neq).
  pose proof (C9_pinned_mode_rejects_other_interfaces (Host0 := steady)
                "wg0" "wg1" st eq_refl (Hn "wg0" "" eq_refl)
                (Hn "wg1" "" eq_refl) (Hn "wg1" "wg0" eq_refl)) as [Hh _].
  split; [reflexivity|]. now rewrite Hh.
Defined.

(** C10 at work: the hostname [1.2.3.4.example.com]. *)
Lemma C10_witness :
  matchesEndpoint "Endpoint = 1.2.3.4.example.com:51820"
    "1.2.3.4.example.com:51820"
  /\ hostPortion "1.2.3.4.example.com:51820" "1.2.3.4.example.com"
  /\ dottedQuadPrefix "1.2.3.4.example.com"
  /\ ~ dottedQuad "1.2.3.4.example.com"
  /\ MatchString ipRegex "1.2.3.4.example.com" = true
  /\ parseLine (Host0 := steady) "wg0"
       "Endpoint = 1.2.3.4.example.com:51820" (start "")
     = (tt, start "").
Proof.
  assert (H1 : matchesEndpoint "Endpoint = 1.2.3.4.example.com:51820"
                 "1.2.3.4.example.com:51820")
    by (eexists; vm_compute; reflexivity).
  assert (H2 : hostPortion "1.2.3.4.example.com:51820" "1.2.3.4.example.com")
    by (eexists; vm_compute; reflexivity).
  assert (H3 : dottedQuadPrefix "1.2.3.4.example.com")
    by (exists ".example.com", "1", "2", "3", "4";
        repeat split; reflexivity).
  split; [exact H1|]. split; [exact H2|]. split; [exact H3|].
  split; [|split].
  - intros H%dottedQuad_chars. vm_compute in H. discriminate.
  - exact (proj1 (C10_filter_tests_a_prefix (Host0 := steady) "wg0" _ _ _
                    (start "") H1 H2 H3)).
  - exact (proj2 (C10_filter_tests_a_prefix (Host0 := steady) "wg0" _ _ _
                    (start "") H1 H2 H3)).
Defined.

End Examples.

(** ** More of the properties at work on the concrete host *)

Section MoreExamples.
Import TestHost.

(** X3 at work.  A pass over [vpn] while the resolver still answers [ip1].
    *)
Lemma pass_without_drift_is_quiet_witness :
  let st := withConfigs [vpn] "" in
  let st1 := exec (checkEndpoints (Host0 := steady)) st in
  Forall2 (fun c r => drifted c r = false)
    (configs (monitor st)) (resolutions (added st st1))
  /\ monitor st1 = monitor st
  /\ restarts (added st st1) = [].
Proof.
  intros st st1.
  assert (H : Forall2 (fun c r => drifted c r = false)
                (configs (monitor st)) (resolutions (added st st1)))
    by (repeat constructor).
  split; [exact H|].
  exact (pass_without_drift_is_quiet (Host0 := steady) st H).
Defined.

(** X4 at work.  [vpn] holds the four bytes of [ip1] and the resolver
    answers with the sixteen bytes of its mapped form. *)
Lemma mapped_form_of_same_address_is_no_drift_witness :
  let st := withConfigs [vpn] "" in
  let st1 := exec (checkEndpoint (Host0 := mapped) 0) st in
  configs (monitor st) !! 0 = Some vpn
  /\ length (LastIP vpn) = IPv4len
  /\ ResolveIPAddr (Host := mapped) "ip4" (Hostname vpn) (world st)
     = (Ok (v4InV6Prefix ++ LastIP vpn), 1)
  /\ monitor st1 = monitor st
  /\ restarts (added st st1) = []
  /\ resolutions (added st st1) = [Ok (v4InV6Prefix ++ LastIP vpn)].
Proof.
  intros st st1.
  split; [reflexivity|]. split; [reflexivity|]. split; [reflexivity|].
  exact (mapped_form_of_same_address_is_no_drift (Host0 := mapped)
           0 vpn 1 st eq_refl eq_refl eq_refl).
Defined.

(** X5 at work.  An entry registered while the resolver was down, then the
    resolver answers [ip1]. *)
Lemma first_answer_restarts_unresolved_entry_witness :
  let c := setLastIP [] vpn in
  let st := withConfigs [c] "" in
  let st1 := exec (checkEndpoint (Host0 := steady) 0) st in
  configs (monitor st) !! 0 = Some c
  /\ LastIP c = []
  /\ ip1 <> []
  /\ ResolveIPAddr (Host := steady) "ip4" (Hostname c) (world st)
     = (Ok ip1, 1)
  /\ configs (monitor st1) = [vpn]
  /\ restarts (added st st1) = ["wg-quick@wg0.service"].
Proof.
  intros c st st1.
  assert (Hne : ip1 <> []) by discriminate.
  split; [reflexivity|]. split; [reflexivity|]. split; [exact Hne|].
  split; [reflexivity|].
  exact (first_answer_restarts_unresolved_entry (Host0 := steady)
           0 c ip1 1 st eq_refl eq_refl Hne eq_refl).
Defined.

(** X7 at work.  A request for [wg1] when only [wg0] is registered. *)
Lemma handleRestart_unknown_interface_witness :
  let st := withConfigs [vpn] "" in
  "wg1" <> ""
  /\ ("wg1" ∉ Interface <$> configs (monitor st))
  /\ handleRestart (Host0 := steady) (Some "wg1") st
     = ({| Status := 404;
           Body := {| Success := false;
                      Message := "Interface 'wg1' not found in monitored interfaces" |} |},
        st).
Proof.
  intros st.
  assert (H1 : "wg1" <> "") by discriminate.
  assert (H2 : "wg1" ∉ Interface <$> configs (monitor st)).
  { change (Interface <$> configs (monitor st)) with ["wg0"].
    intros H%list_elem_of_singleton. discriminate H. }
  split; [exact H1|]. split; [exact H2|].
  exact (handleRestart_unknown_interface (Host0 := steady) "wg1" st
           H1 (or_introl eq_refl) H2).
Defined.

(** X8 at work.  A request for [wg0], registered, with the monitor pinned to
    it. *)
Lemma handleRestart_registered_interface_witness :
  let st := withConfigs [vpn] "wg0" in
  "wg0" <> ""
  /\ singleInterface (monitor st) = "wg0"
  /\ ("wg0" ∈ Interface <$> configs (monitor st))
  /\ restarts (added st (exec (handleRestart (Host0 := steady) (Some "wg0")) st))
     = ["wg-quick@wg0.service"].
Proof.
  intros st.
  assert (H1 : "wg0" <> "") by discriminate.
  assert (H2 : "wg0" ∈ Interface <$> configs (monitor st)).
  { change (Interface <$> configs (monitor st)) with ["wg0"].
    apply list_elem_of_singleton. reflexivity. }
  split; [exact H1|]. split; [reflexivity|]. split; [exact H2|].
  exact (proj2 (handleRestart_registered_interface (Host0 := steady) "wg0" st
                  H1 (or_intror eq_refl) H2)).
Defined.

(** X9 at work.  The same request through the group [/api/v1], with the key
    and with another one. *)
Lemma api_restarts_only_registered_interfaces_with_the_key_witness :
  let st := guarded [vpn] "" in
  let text : IP -> string := fun _ => "" in
  let st1 := exec (serveV1 (Host0 := steady) text (Some "secret")
                     (PostRestart (Some "wg0"))) st in
  restarts (added st st1) <> []
  /\ restarts (added st st1) = ["wg-quick@wg0.service"]
  /\ "wrong" <> apiKey (monitor st)
  /\ serveV1 (Host0 := steady) text (Some "wrong")
       (PostRestart (Some "wg0")) st
     = (ErrorReply 401 "Invalid API key", st).
Proof.
  intros st text st1.
  assert (H1 : restarts (added st st1) <> []) by discriminate.
  assert (H2 : "wrong" <> apiKey (monitor st)) by discriminate.
  split; [exact H1|]. split.
  - destruct (proj2 (api_restarts_only_registered_interfaces_with_the_key
                       (Host0 := steady) text (Some "secret")
                       (PostRestart (Some "wg0")) st) H1)
      as (_ & Y & Hreq & _ & _ & _ & Hr).
    injection Hreq as <-. exact Hr.
  - split; [exact H2|].
    exact (proj1 (api_restarts_only_registered_interfaces_with_the_key
                    (Host0 := steady) text (Some "wrong")
                    (PostRestart (Some "wg0")) st) H2).
Defined.

(** X12 at work.  Of the four units of [someUnits], discovery looks at [wg9]
    and [wg0]. *)
Lemma discovery_looks_at_active_tunnel_units_only_witness :
  let st := start "" in
  fst (ListUnitsContext (Host := drifting) (world st)) = Ok someUnits
  /\ Name <$> List.filter accepted someUnits
     = ["wg-quick@wg9.service"; "wg-quick@wg0.service"]
  /\ exec (discoverWireGuardConfigs (Host0 := drifting)) st
     = exec (forEach (List.filter accepted someUnits)
               (discoverUnit (Host0 := drifting))) st.
Proof.
  intros st. split; [reflexivity|]. split; [reflexivity|].
  exact (proj1 (discovery_looks_at_active_tunnel_units_only
                  (Host0 := drifting) someUnits st eq_refl)).
Defined.

(** X13 at work.  The unit of [wg9] is active and its configuration is not
    on disk. *)
Lemma unreadable_config_does_not_stop_discovery_witness :
  let st := start "" in
  let unit := {| Name := "wg-quick@wg9.service"; ActiveState := "active" |} in
  let rest := [{| Name := "wg-quick@wg0.service"; ActiveState := "active" |}] in
  accepted unit = true
  /\ fst (ReadFile (Host := drifting) "/etc/wireguard/wg9.conf" (world st))
     = Err "no such file or directory"
  /\ exec (discoverUnit (Host0 := drifting) unit) st = st
  /\ exec (forEach (unit :: rest) (discoverUnit (Host0 := drifting))) st
     = exec (forEach rest (discoverUnit (Host0 := drifting))) st.
Proof.
  intros st unit rest. split; [reflexivity|]. split; [reflexivity|].
  exact (unreadable_config_does_not_stop_discovery (Host0 := drifting)
           unit rest "no such file or directory" st eq_refl eq_refl).
Defined.

(** X14 at work.  Discovery on the host [drifting]. *)
Lemma discovered_entries_belong_to_active_units_witness :
  let st := start "" in
  let st1 := exec (discoverWireGuardConfigs (Host0 := drifting)) st in
  fst (ListUnitsContext (Host := drifting) (world st)) = Ok someUnits
  /\ Hostname <$> configs (monitor st1) = ["a.example.com"; "b.example.com"]
  /\ exists entries,
       configs (monitor st1) = configs (monitor st) ++ entries
       /\ Forall (fun c =>
                    exists unit,
                      unit ∈ someUnits /\ ActiveState unit = "active"
                      /\ Name unit = serviceName (Interface c)) entries
       /\ restarts (trace st1) = restarts (trace st).
Proof.
  intros st st1. split; [reflexivity|]. split; [reflexivity|].
  exact (discovered_entries_belong_to_active_units (Host0 := drifting)
           someUnits st eq_refl).
Defined.

(** X15 at work.  Discovery, then a pass in which both names have moved. *)
Lemma only_units_of_registered_interfaces_are_restarted_witness :
  let st := exec (checkEndpoints (Host0 := drifting))
              (exec (initialize (Host0 := drifting)) (start "")) in
  reachable (Host0 := drifting) st
  /\ restarts (trace st) = ["wg-quick@wg0.service"; "wg-quick@wg0.service"]
  /\ Forall (fun u => exists c, c ∈ configs (monitor st)
                                /\ u = serviceName (Interface c))
       (restarts (trace st)).
Proof.
  intros st.
  assert (Hr : reachable (Host0 := drifting) st)
    by (apply reach_check, reach_init; reflexivity).
  split; [exact Hr|]. split; [reflexivity|].
  exact (only_units_of_registered_interfaces_are_restarted
           (Host0 := drifting) st Hr).
Defined.

(** X16 at work.  The same run with the monitor pinned to [wg0]. *)
Lemma pinned_mode_restarts_only_the_pinned_unit_witness :
  let st := exec (checkEndpoints (Host0 := drifting))
              (exec (initialize (Host0 := drifting)) (start "wg0")) in
  reachable (Host0 := drifting) st
  /\ singleInterface (monitor st) <> ""
  /\ Forall (fun c => Interface c = singleInterface (monitor st))
       (configs (monitor st))
  /\ Forall (fun u => u = serviceName (singleInterface (monitor st)))
       (restarts (trace st)).
Proof.
  intros st.
  assert (Hr : reachable (Host0 := drifting) st)
    by (apply reach_check, reach_init; reflexivity).
  assert (Hs : singleInterface (monitor st) <> "")
    by (intros E; vm_compute in E; discriminate E).
  split; [exact Hr|]. split; [exact Hs|].
  exact (pinned_mode_restarts_only_the_pinned_unit (Host0 := drifting)
           st Hr Hs).
Defined.

(** X17 at work.  The first entry that discovery registers on the host
    [installed]. *)
Lemma registered_hostname_is_host_of_endpoint_witness :
  let st := exec (initialize (Host0 := installed)) (start "") in
  let c := {| Interface := "wg0";
              Endpoint := "a.example.com:51820";
              Hostname := "a.example.com";
              LastIP := ip1 |} in
  reachable (Host0 := installed) st
  /\ (c ∈ configs (monitor st))
  /\ (exists port, SplitHostPort (Endpoint c) = Ok (Hostname c, port))
  /\ MatchString ipRegex (Hostname c) = false.
Proof.
  intros st c.
  assert (Hr : reachable (Host0 := installed) st)
    by (apply reach_init; reflexivity).
  assert (Hc : c ∈ configs (monitor st)) by (vm_compute; left).
  split; [exact Hr|]. split; [exact Hc|].
  exact (registered_hostname_is_host_of_endpoint (Host0 := installed)
           st c Hr Hc).
Defined.


(** X19 at work.  An indented [Endpoint] line. *)
Lemma only_endpoint_lines_register_witness :
  let st := start "" in
  let text := "  Endpoint = a.example.com:51820" in
  let st1 := exec (parseLine (Host0 := steady) "wg0" text) st in
  configs (monitor st1) <> configs (monitor st)
  /\ exists ws1 ws2 value c,
       TrimSpace text = "Endpoint" +:+ ws1 +:+ "=" +:+ ws2 +:+ value
       /\ allChars space ws1 = true /\ allChars space ws2 = true
       /\ value <> ""
       /\ configs (monitor st1) = configs (monitor st) ++ [c]
       /\ Interface c = "wg0"
       /\ Endpoint c = TrimSpace value
       /\ exists port, SplitHostPort (Endpoint c) = Ok (Hostname c, port).
Proof.
  intros st text st1.
  assert (H : configs (monitor st1) <> configs (monitor st))
    by (intros E; vm_compute in E; discriminate E).
  split; [exact H|].
  exact (only_endpoint_lines_register (Host0 := steady) "wg0" text st H).
Defined.

(** X20 at work.  The line [Endpoint = a.example.com:51820] after a tab,
    with a trailing space. *)
Lemma plain_endpoint_line_is_registered_witness :
  let st := start "" in
  let tab := String (ascii_of_nat 9) "" in
  let text := tab +:+ "Endpoint" +:+ " " +:+ "=" +:+ " "
              +:+ ("a.example.com" +:+ ":" +:+ "51820") +:+ " " in
  ~ dottedQuadPrefix "a.example.com"
  /\ configs (monitor (exec (parseLine (Host0 := steady) "wg0" text) st))
     = [{| Interface := "wg0";
           Endpoint := "a.example.com:51820";
           Hostname := "a.example.com";
           LastIP := ip1 |}].
Proof.
  intros st tab text.
  assert (H : ~ dottedQuadPrefix "a.example.com")
    by (intros H%ipRegex_complete; discriminate H).
  split; [exact H|].
  exact (proj1 (plain_endpoint_line_is_registered (Host0 := steady)
                  "wg0" tab " " " " " " "a.example.com" "51820" st
                  eq_refl eq_refl eq_refl eq_refl eq_refl eq_refl eq_refl
                  eq_refl eq_refl eq_refl eq_refl eq_refl H)).
Defined.


(** X22 at work.  The line [Endpoint = example.com]. *)
Lemma endpoint_without_port_is_passed_over_witness :
  matchesEndpoint "Endpoint = example.com" "example.com"
  /\ without ":" (TrimSpace "example.com") = true
  /\ parseLine (Host0 := steady) "wg0" "Endpoint = example.com" (start "")
     = (tt, start "").
Proof.
  assert (H : matchesEndpoint "Endpoint = example.com" "example.com")
    by (eexists; vm_compute; reflexivity).
  split; [exact H|]. split; [reflexivity|].
  exact (endpoint_without_port_is_passed_over (Host0 := steady)
           "wg0" "Endpoint = example.com" "example.com" (start "")
           H eq_refl).
Defined.

(** X23 at work.  A peer section ended by line feeds, then a comment that is
    not. *)
Lemma config_is_parsed_line_by_line_witness :
  let st := start "" in
  let ls := ["[Peer]"; "Endpoint = a.example.com:51820"] in
  Forall (scannable 0) ls
  /\ scannable 0 "# end"
  /\ scanConfig (Host0 := steady) "wg0" (joinWith (String LF "") ls) st
     = (None, exec (forEach ls (parseLine (Host0 := steady) "wg0")) st)
  /\ scanConfig (Host0 := steady) "wg0"
       (joinWith (String LF "") ls +:+ "# end") st
     = (None,
        exec (forEach (ls ++ ["# end"]) (parseLine (Host0 := steady) "wg0"))
          st).
Proof.
  intros st ls.
  assert (Hs : forall l,
             without LF l = true ->
             (N.of_nat (String.length l + 0) <? MaxScanTokenSize)%N = true ->
             scannable 0 l)
    by (intros l H1 H2%N.ltb_lt; split; assumption).
  assert (H1 : Forall (scannable 0) ls)
    by (repeat (constructor; [apply Hs; reflexivity|]); constructor).
  assert (H2 : scannable 0 "# end") by (apply Hs; reflexivity).
  assert (Hne : "# end" <> "") by discriminate.
  split; [exact H1|]. split; [exact H2|]. split.
  - exact (proj1 (config_is_parsed_line_by_line (Host0 := steady)
                    "wg0" ls "# end" st H1 H2)).
  - exact (proj2 (config_is_parsed_line_by_line (Host0 := steady)
                    "wg0" ls "# end" st H1 H2) Hne).
Defined.


(** X25 at work.  An [Endpoint] line, a line of 65536 bytes, another
    [Endpoint] line: the first one is registered, the other is not. *)
Lemma too_long_line_stops_the_parser_witness :
  let st := start "" in
  let ls := ["Endpoint = a.example.com:51820"] in
  let tail := nl +:+ "Endpoint = b.example.com:51820" +:+ nl in
  let data := joinWith (String LF "") ls +:+ longLine +:+ tail in
  Forall (scannable 0) ls
  /\ without LF longLine = true
  /\ (MaxScanTokenSize <= N.of_nat (String.length longLine))%N
  /\ fst (scanConfig (Host0 := steady) "wg0" data st) = Some ErrTooLong
  /\ Hostname <$> configs (monitor (exec (scanConfig (Host0 := steady)
                                            "wg0" data) st))
     = ["a.example.com"].
Proof.
  intros st ls tail data.
  assert (H1 : Forall (scannable 0) ls) by (repeat constructor).
  assert (H2 : without LF longLine = true) by (vm_compute; reflexivity).
  assert (H3 : (MaxScanTokenSize <= N.of_nat (String.length longLine))%N)
    by (vm_compute; discriminate).
  assert (H4 : tail = "" \/ (exists t, tail = String LF t))
    by (right; eexists; reflexivity).
  pose proof (too_long_line_stops_the_parser (Host0 := steady)
                "wg0" ls longLine tail st H1 H2 H3 H4) as E.
  split; [exact H1|]. split; [exact H2|]. split; [exact H3|].
  unfold exec. fold data in E. rewrite E. split; reflexivity.
Defined.


(** X27 at work.  [--help] after an option that is left without a value. *)
Lemma help_is_seen_anywhere_witness :
  let a := Cli.mkArgs "" "" "" "" "" "" true in
  In "--help" ["--api-key"; "--help"]
  /\ Cli.loop ["--api-key"; "--help"] Cli.empty = Ok a
  /\ Cli.help a = true.
Proof.
  intros a.
  assert (H1 : In "--help" ["--api-key"; "--help"]) by (right; left; reflexivity).
  assert (H2 : Cli.loop ["--api-key"; "--help"] Cli.empty = Ok a)
    by reflexivity.
  split; [exact H1|]. split; [exact H2|].
  exact (help_is_seen_anywhere ["--api-key"; "--help"] Cli.empty a H1 H2).
Defined.

End MoreExamples.
